(** * convert_labels_to_records: a shallow embedding and its properties

    The development follows [training/convert_labels_to_records.py]:
    annotation discovery, the label vocabulary, the train/eval split, the
    round-robin shard partition, the record encoder, the shard writer and
    the main program.  Python values are modelled as they are in the
    script: [int] as [Z], [float] as an IEEE-754 binary64 value
    ([spec_float] at precision 53), [str] as [string], a [dict] or a
    [Counter] as an insertion-ordered association list, exceptions as the
    [Raise] side of a result type. *)

From Stdlib Require Import ZArith String Ascii SpecFloat.
From stdpp Require Import base tactics option list sorting strings pretty.

(** ** Exceptions and the result monad *)

Inductive exn :=
  | OSError
  | IndexError
  | KeyError (key : string)
  | ZeroDivisionError
  | OverflowError
  | ValueError.

Inductive result (A : Type) :=
  | Ok (a : A)
  | Raise (e : exn).
Arguments Ok {A} a.
Arguments Raise {A} e.

#[global] Instance result_ret : MRet result := λ A a, Ok a.
#[global] Instance result_bind : MBind result := λ A B f m,
  match m with
  | Ok a => f a
  | Raise e => Raise e
  end.
#[global] Instance result_fmap : FMap result := λ A B f m,
  match m with
  | Ok a => Ok (f a)
  | Raise e => Raise e
  end.

Definition is_Ok {A} (m : result A) : Prop := ∃ a, m = Ok a.

(** ** Shard partition (get_record_writing_tasks, lines 253-256 and 263-266) *)

Module Partition.

(** [min(max(args.number, 1), len(filenames))] *)
Definition record_number (number : Z) (filenames : list string) : Z :=
  Z.min (Z.max number 1) (Z.of_nat (length filenames)).

(** [[[] for i in range(n)]]; [range] of a non-positive count is empty. *)
Definition empty_lists (n : Z) : list (list string) :=
  replicate (Z.to_nat n) [].

(** [i % n] on Python integers. *)
Definition py_mod (i n : Z) : result Z :=
  if (n =? 0)%Z then Raise ZeroDivisionError else Ok (i mod n)%Z.

(** [lists[k].append(filename)]: a negative index counts from the end,
    an index out of range raises [IndexError]. *)
Definition append_at (lists : list (list string)) (k : Z) (filename : string)
  : result (list (list string)) :=
  let len := Z.of_nat (length lists) in
  let k' := if (k <? 0)%Z then (k + len)%Z else k in
  if ((k' <? 0) || (len <=? k'))%Z then Raise IndexError
  else Ok (alter (λ l, l ++ [filename]) (Z.to_nat k') lists).

(** [for i, filename in enumerate(filenames): lists[i % n].append(filename)],
    started at index [i]. *)
Fixpoint distribute (n : Z) (i : nat) (filenames : list string)
    (lists : list (list string)) : result (list (list string)) :=
  match filenames with
  | [] => Ok lists
  | filename :: rest =>
      k ← py_mod (Z.of_nat i) n;
      lists' ← append_at lists k filename;
      distribute n (S i) rest lists'
  end.

Definition split_into_lists (number : Z) (filenames : list string)
  : result (list (list string)) :=
  let n := record_number number filenames in
  distribute n 0 filenames (empty_lists n).

End Partition.

(** ** Python numbers

    A Python [float] is an IEEE-754 binary64 value; the operations are the
    ones of [SpecFloat] at precision 53, rounding to nearest even. *)

Module Num.

Definition prec : Z := 53.
Definition emax : Z := 1024.

Abbreviation float := spec_float.

Inductive pynum :=
  | PyInt (z : Z)
  | PyFloat (f : float).

Definition float_one : float := S754_finite false (2 ^ 52) (-52).

(** [float(z)] as the interpreter converts an [int] operand
    (PyLong_AsDouble): correctly rounded, [OverflowError] when the
    integer is too large. *)
Definition of_int (z : Z) : result float :=
  match binary_normalize prec emax z 0 false with
  | S754_infinity _ => Raise OverflowError
  | r => Ok r
  end.

(** [z * f] with [z] an [int] and [f] a [float]. *)
Definition int_mul_float (z : Z) (f : float) : result float :=
  a ← of_int z; Ok (SFmul prec emax a f).

(** [a / b] on two [int]s: the correctly rounded quotient
    (long_true_divide). *)
Definition int_true_divide (a b : Z) : result float :=
  if (b =? 0)%Z then Raise ZeroDivisionError
  else if (a =? 0)%Z then Ok (S754_zero (b <? 0)%Z)
  else
    let s := xorb (a <? 0)%Z (b <? 0)%Z in
    let '(mz, ez, lz) :=
      SFdiv_core_binary prec emax (Z.abs a) 0 (Z.abs b) 0 in
    match binary_round_aux prec emax s mz ez lz with
    | S754_infinity _ => Raise OverflowError
    | r => Ok r
    end.

Definition is_zero (f : float) : bool :=
  match f with S754_zero _ => true | _ => false end.

(** [a / b] on two [float]s (float_div). *)
Definition float_div (a b : float) : result float :=
  if is_zero b then Raise ZeroDivisionError else Ok (SFdiv prec emax a b).

(** [x / w] where [w] is an [int] (an image dimension). *)
Definition truediv (x : pynum) (w : Z) : result float :=
  match x with
  | PyInt a => int_true_divide a w
  | PyFloat a => b ← of_int w; float_div a b
  end.

(** [int(f)]: truncation toward zero. *)
Definition float_to_int (f : float) : result Z :=
  match f with
  | S754_zero _ => Ok 0%Z
  | S754_infinity _ => Raise OverflowError
  | S754_nan => Raise ValueError
  | S754_finite s m e =>
      Ok (cond_Zopp s
            (if (0 <=? e)%Z then Z.pos m * 2 ^ e
             else Z.pos m `div` 2 ^ (- e)))%Z
  end.

(** Exact comparison of a [float] with an [int] (float_richcompare);
    [None] when the float is a NaN. *)
Definition float_compare_int (f : float) (z : Z) : option comparison :=
  match f with
  | S754_nan => None
  | S754_infinity s => Some (if s then Lt else Gt)
  | S754_zero _ => Some (0 ?= z)%Z
  | S754_finite s m e =>
      Some (if (0 <=? e)%Z then (cond_Zopp s (Z.pos m * 2 ^ e) ?= z)%Z
            else (cond_Zopp s (Z.pos m) ?= z * 2 ^ (- e))%Z)
  end.

(** [a < b] *)
Definition lt (a b : pynum) : bool :=
  match a, b with
  | PyInt x, PyInt y => (x <? y)%Z
  | PyFloat x, PyFloat y => SFltb x y
  | PyFloat x, PyInt y =>
      match float_compare_int x y with Some Lt => true | _ => false end
  | PyInt x, PyFloat y =>
      match float_compare_int y x with Some Gt => true | _ => false end
  end.

(** [a <= b] *)
Definition le (a b : pynum) : bool :=
  match a, b with
  | PyInt x, PyInt y => (x <=? y)%Z
  | PyFloat x, PyFloat y => SFleb x y
  | PyFloat x, PyInt y =>
      match float_compare_int x y with Some (Lt | Eq) => true | _ => false end
  | PyInt x, PyFloat y =>
      match float_compare_int y x with Some (Gt | Eq) => true | _ => false end
  end.

(** [min(a, b)]: the first argument unless the second is smaller. *)
Definition min (a b : pynum) : pynum := if lt b a then b else a.

(** [max(a, b)]: the first argument unless the second is greater. *)
Definition max (a b : pynum) : pynum := if lt a b then b else a.

End Num.

(** ** Containers: [dict], [Counter] and [set]

    A [dict] keeps its keys in insertion order, which is the order
    [labels.items()] yields them in. *)

Module Dict.

Definition dict := list (string * Z).

Fixpoint get (d : dict) (k : string) : option Z :=
  match d with
  | [] => None
  | (k', v) :: d' => if decide (k = k') then Some v else get d' k
  end.

(** [d[k] = v] *)
Fixpoint set (d : dict) (k : string) (v : Z) : dict :=
  match d with
  | [] => [(k, v)]
  | (k', v') :: d' =>
      if decide (k = k') then (k, v) :: d' else (k', v') :: set d' k v
  end.

(** [d[k]] *)
Definition getitem (d : dict) (k : string) : result Z :=
  match get d k with
  | Some v => Ok v
  | None => Raise (KeyError k)
  end.

(** [{label: i for i, label in enumerate(labels)}], counting from [i]. *)
Fixpoint of_enumerate (d : dict) (i : nat) (labels : list string) : dict :=
  match labels with
  | [] => d
  | label :: rest => of_enumerate (set d label (Z.of_nat i)) (S i) rest
  end.

End Dict.

Module Counter.

Definition counter := list (string * Z).

(** [c[k]], zero for a missing key. *)
Definition count (c : counter) (k : string) : Z := default 0%Z (Dict.get c k).

(** [Counter(iterable)]: one more for every element. *)
Definition of_list (l : list string) : counter :=
  foldl (λ c k, Dict.set c k (count c k + 1)%Z) [] l.

(** [c += other]: add the counts, then keep the positive ones. *)
Definition iadd (c other : counter) : counter :=
  filter (λ kv, (0 < kv.2)%Z)
    (foldl (λ c kv, Dict.set c kv.1 (count c kv.1 + kv.2)%Z) c other).

(** The number of occurrences counted, [sum(c.values())]. *)
Definition total (c : counter) : Z := foldr (λ kv acc, (kv.2 + acc)%Z) 0%Z c.

End Counter.

Module PySet.

(** A [set] of strings holds each element once; the order in which it is
    iterated is left to the interpreter, here the order of insertion. *)
Definition add (s : list string) (x : string) : list string :=
  if decide (x ∈ s) then s else s ++ [x].

(** [set(l)] *)
Definition of_list (l : list string) : list string := foldl add [] l.

(** [s.update(t)] *)
Definition update (s t : list string) : list string := foldl add s t.

(** [a <= b] on strings: lexicographic on the code points. *)
Definition str_le (a b : string) : Prop := String.leb a b = true.

#[global] Instance str_le_dec a b : Decision (str_le a b) :=
  decide (String.leb a b = true).

(** [sorted(s)] on strings: ascending. *)
Definition sorted (s : list string) : list string := merge_sort str_le s.

End PySet.

(** ** The environment of a run *)

(** What a path names: a file, or a directory that can or cannot be
    listed. *)
Inductive node :=
  | File
  | Dir (readable : bool) (entries : list (string * node)).

Record image := {
  im_width : Z;
  im_height : Z;
  im_channels : result Z;  (* [np.array(im).shape[2]] *)
  im_png : string          (* the bytes [im.save(arr, format='PNG')] yields *)
}.

(** A box, [rect[0]] to [rect[3]]. *)
Record rect := {
  rect_0 : Num.pynum;
  rect_1 : Num.pynum;
  rect_2 : Num.pynum;
  rect_3 : Num.pynum
}.

Definition rng := Z.

(** The file system, the libraries outside the repository and the random
    generator, as the script sees them. *)
Record world := {
  fs_lookup : string → option node;
  path_join : string → string → string;
  path_basename : string → string;
  path_dirname : string → string;
  path_splitext : string → string * string;
  path_isfile : string → bool;
  (* [open(p).readline().strip()] *)
  read_first_line : string → result string;
  (* [Image.open(p)] *)
  image_open : string → result image;
  (* [bbox_writer.read_rects(p)] *)
  read_rects : string → result (list rect * list string);
  (* whether a file can be created at the path *)
  can_write : string → bool;
  (* [random.seed] and the generator behind [random.shuffle] *)
  seed : Z → rng;
  randbelow : rng → nat → nat * rng;
  (* [os.cpu_count()] *)
  cpu_count : nat
}.

(** ** Annotation discovery (get_shuffled_filenames) *)

Module Discovery.

(** [s.endswith(suffix)] *)
Definition endswith (s suffix : string) : bool :=
  let n := String.length s in
  let k := String.length suffix in
  if decide (k ≤ n) then String.eqb (substring (n - k) k s) suffix
  else false.

(** [os.walk(top)], top down, errors of the directory listing ignored
    (the default [onerror=None]): a path that cannot be listed yields
    nothing. *)
Fixpoint walk (w : world) (top : string) (n : node)
  : list (string * list string * list string) :=
  match n with
  | File => []
  | Dir false _ => []
  | Dir true entries =>
      let dirs :=
        omap (λ e, match e.2 with Dir _ _ => Some e.1 | File => None end)
          entries in
      let files :=
        omap (λ e, match e.2 with File => Some e.1 | Dir _ _ => None end)
          entries in
      (top, dirs, files) ::
      (fix below (es : list (string * node)) :=
         match es with
         | [] => []
         | (name, File) :: es' => below es'
         | (name, (Dir _ _) as child) :: es' =>
             walk w (path_join w top name) child ++ below es'
         end) entries
  end.

Definition os_walk (w : world) (top : string)
  : list (string * list string * list string) :=
  match fs_lookup w top with
  | None => []
  | Some n => walk w top n
  end.

(** The two nested loops over [os.walk(folder)]. *)
Definition collect (w : world) (folder : string) : list string :=
  '(root, _, files) ← os_walk w folder;
  name ← files;
  if negb (endswith name ".txt") then []
  else if endswith name "rects.txt" then []
  else [path_join w root name].

(** [x[i], x[j] = x[j], x[i]] *)
Definition swap (x : list string) (i j : nat) : list string :=
  match x !! i, x !! j with
  | Some xi, Some xj => <[j := xi]> (<[i := xj]> x)
  | _, _ => x
  end.

(** [random.shuffle(x)]:
    [for i in reversed(range(1, len(x))): j = randbelow(i + 1); swap]. *)
Fixpoint shuffle_from (w : world) (i : nat) (x : list string) (g : rng)
  : list string * rng :=
  match i with
  | 0 => (x, g)
  | S i' =>
      let '(j, g') := randbelow w g (S i) in
      shuffle_from w i' (swap x i j) g'
  end.

Definition shuffle (w : world) (x : list string) (g : rng)
  : list string * rng :=
  shuffle_from w (length x - 1) x g.

Definition get_shuffled_filenames (w : world) (folder : string) (g : rng)
  : list string * rng :=
  shuffle w (collect w folder) g.

End Discovery.

(** ** Label vocabulary (get_labels_from_filenames) *)

Module Labels.

(** The loop that gathers the class names of every file into a set. *)
Fixpoint gather (w : world) (labels : list string) (filenames : list string)
  : result (list string) :=
  match filenames with
  | [] => Ok labels
  | filename :: rest =>
      '(_, classes) ← read_rects w filename;
      gather w (PySet.update labels (PySet.of_list classes)) rest
  end.

Definition get_labels_from_filenames (w : world) (filenames : list string)
  : result Dict.dict :=
  labels ← gather w [] filenames;
  Ok (Dict.of_enumerate [] 0 (PySet.sorted labels)).

End Labels.

(** ** Train/eval split (get_train_eval_split_filenames) *)

Module Split.

(** The bound of a slice [l[:k]] or [l[k:]]: a negative [k] counts from
    the end, and the bound is clipped to the list. *)
Definition slice_bound (len : nat) (k : Z) : nat :=
  Z.to_nat (if (k <? 0)%Z then Z.max (k + Z.of_nat len) 0
            else Z.min k (Z.of_nat len)).

Definition get_train_eval_split_filenames
    (filenames : list string) (split : Num.float)
  : result (list string * list string) :=
  product ← Num.int_mul_float (Z.of_nat (length filenames)) split;
  eval_size ← Num.float_to_int product;
  let eval_filenames := take (slice_bound (length filenames) eval_size) filenames in
  let train_filenames := drop (slice_bound (length filenames) eval_size) filenames in
  Ok (train_filenames, eval_filenames).

End Split.

(** ** Record encoder (create_tf_example) *)

Record tf_example := {
  image_height : Z;
  image_width : Z;
  image_channels : Z;
  image_colorspace : string;
  image_filename : string;
  image_source_id : string;
  image_key : string;
  image_encoded : string;
  image_format : string;
  bbox_xmin : list Num.pynum;
  bbox_xmax : list Num.pynum;
  bbox_ymin : list Num.pynum;
  bbox_ymax : list Num.pynum;
  class_text : list string;
  class_label : list Z
}.

Module Encoder.

(** [max(min(x / dim, 1), 0)] *)
Definition normalize (x : Num.pynum) (dim : Z) : result Num.pynum :=
  q ← Num.truediv x dim;
  Ok (Num.max (Num.min (Num.PyFloat q) (Num.PyInt 1)) (Num.PyInt 0)).

(** [first[1:]] *)
Definition tail (s : string) : string :=
  match s with
  | EmptyString => EmptyString
  | String _ t => t
  end.

Definition image_path (w : world) (txt_full_path first : string) : string :=
  if String.prefix "#" first && path_isfile w (tail first) then tail first
  else
    let txt_name := path_basename w txt_full_path in
    let image_name := (path_splitext w txt_name).1 +:+ ".png" in
    path_join w (path_dirname w txt_full_path) image_name.

Definition create_tf_example (w : world) (labels : Dict.dict)
    (txt_full_path : string)
  : result (tf_example * Counter.counter * bool) :=
  first ← read_first_line w txt_full_path;
  let image_full_path := image_path w txt_full_path first in
  im ← image_open w image_full_path;
  let height := im_height im in
  let width := im_width im in
  channels ← im_channels im;
  '(rects, classes) ← read_rects w txt_full_path;
  xmins ← mapM (λ r, normalize (rect_0 r) width) rects;
  xmaxs ← mapM (λ r, normalize (rect_2 r) width) rects;
  ymins ← mapM (λ r, normalize (rect_1 r) height) rects;
  ymaxs ← mapM (λ r, normalize (rect_3 r) height) rects;
  let classes_txt := classes in
  class_ids ← mapM (Dict.getitem labels) classes;
  let example := {|
    image_height := height;
    image_width := width;
    image_channels := channels;
    image_colorspace := "RGB";
    image_filename := image_full_path;
    image_source_id := image_full_path;
    image_key := image_full_path;
    image_encoded := im_png im;
    image_format := "png";
    bbox_xmin := xmins;
    bbox_xmax := xmaxs;
    bbox_ymin := ymins;
    bbox_ymax := ymaxs;
    class_text := classes_txt;
    class_label := class_ids
  |} in
  let is_negative := bool_decide (length rects = 0) in
  Ok (example, Counter.of_list classes, is_negative).

End Encoder.

(** ** Output: what a run writes, in order *)

Inductive event :=
  | RecordOpen (path : string)
  | RecordWrite (path : string) (example : tf_example)
  | RecordClose (path : string)
  | ManifestWrite (path : string) (content : string).

Definition trace := list event.

(** A computation that may raise and that appends to the output; what was
    written before an exception stays written. *)
Definition io (A : Type) : Type := trace → result A * trace.

#[global] Instance io_ret : MRet io := λ A a tr, (Ok a, tr).
#[global] Instance io_bind : MBind io := λ A B f m tr,
  match m tr with
  | (Ok a, tr') => f a tr'
  | (Raise e, tr') => (Raise e, tr')
  end.

Definition lift {A} (r : result A) : io A := λ tr, (r, tr).
Definition emit (ev : event) : io unit := λ tr, (Ok (), tr ++ [ev]).

(** Leaving a [with] block: the closing event happens on both exits. *)
Definition finally {A} (m : io A) (ev : event) : io A := λ tr,
  let '(r, tr') := m tr in (r, tr' ++ [ev]).

(** ** Shard writer (write_record_from_list) *)

Record Result := {
  res_id : string;
  record_count : Z;
  class_count : Counter.counter;
  negative_count : Z
}.

Module Writer.

Fixpoint write_loop (w : world) (labels : Dict.dict) (out_path : string)
    (data : list string) (examples_count : Counter.counter)
    (negative_count : Z) : io (Counter.counter * Z) :=
  match data with
  | [] => mret (examples_count, negative_count)
  | filename :: rest =>
      '(example, count, is_negative) ←
        lift (Encoder.create_tf_example w labels filename);
      emit (RecordWrite out_path example);;
      write_loop w labels out_path rest
        (Counter.iadd examples_count count)
        (negative_count + (if is_negative : bool then 1 else 0))%Z
  end.

Definition write_record_from_list (w : world) (id : string)
    (labels : Dict.dict) (data : list string) (out_path : string)
  : io Result :=
  (if can_write w out_path then emit (RecordOpen out_path)
   else lift (Raise OSError));;
  '(examples_count, negative_count) ←
    finally (write_loop w labels out_path data [] 0%Z)
            (RecordClose out_path);
  mret {| res_id := id;
          record_count := Z.of_nat (length data);
          class_count := examples_count;
          negative_count := negative_count |}.

End Writer.

(** ** Task builder (get_record_writing_tasks) *)

Record args := {
  folder : string;
  number : Z;
  split : Num.float;
  eval : bool;
  eval_folder : option string
}.

Record task := {
  task_id : string;
  task_labels : Dict.dict;
  task_data : list string;
  task_out_path : string
}.

Module Tasks.

(** ["%02d" % i] for an index [i]. *)
Definition fmt_02d (i : nat) : string :=
  let s := pretty i in
  if decide (String.length s < 2) then "0" +:+ s else s.

(** [for i, l in enumerate(lists): tasks.append(...)] for the split
    called [name]. *)
Definition make_tasks (w : world) (folder name : string)
    (labels : Dict.dict) (lists : list (list string)) : list task :=
  imap (λ i l,
          {| task_id := name +:+ "-" +:+ fmt_02d i;
             task_labels := labels;
             task_data := l;
             task_out_path :=
               path_join w folder (name +:+ "-" +:+ fmt_02d i +:+ ".record") |})
       lists.

(** The tasks of one split: partition, then one task per list. *)
Definition tasks_for (w : world) (folder name : string) (number : Z)
    (labels : Dict.dict) (filenames : list string) : result (list task) :=
  lists ← Partition.split_into_lists number filenames;
  Ok (make_tasks w folder name labels lists).

(** The train and eval file lists, by the three modes. *)
Definition get_filenames (w : world) (a : args) (g : rng)
  : result (list string * list string) :=
  let '(train_filenames, g1) :=
    Discovery.get_shuffled_filenames w (folder a) g in
  match eval_folder a with
  | Some ef =>
      Ok (train_filenames, (Discovery.get_shuffled_filenames w ef g1).1)
  | None =>
      if eval a
      then Split.get_train_eval_split_filenames train_filenames (split a)
      else Ok (train_filenames, [])
  end.

Definition get_record_writing_tasks (w : world) (a : args) (g : rng)
  : result (list task * Dict.dict) :=
  '(train_filenames, eval_filenames) ← get_filenames w a g;
  labels ←
    Labels.get_labels_from_filenames w (train_filenames ++ eval_filenames);
  train_tasks ← tasks_for w (folder a) "train" (number a) labels train_filenames;
  eval_tasks ← tasks_for w (folder a) "eval" (number a) labels eval_filenames;
  Ok (train_tasks ++ eval_tasks, labels).

End Tasks.

(** ** The thread pool ([ThreadPool().starmap])

    The pool cuts the task list into batches; a worker runs the tasks of
    a batch one after the other and stops the batch at the first
    exception; every batch is run; the call returns the results in task
    order, or raises when a batch failed.  The batches are run here in
    order, which is one of the interleavings the pool allows. *)

Module Pool.

(** [os.cpu_count() or 1] *)
Definition processes (w : world) : nat :=
  if decide (cpu_count w = 0) then 1 else cpu_count w.

(** [chunksize, extra = divmod(len(tasks), processes * 4)], plus one
    when there is a remainder. *)
Definition chunksize (w : world) (len : nat) : nat :=
  let q := len `div` (processes w * 4) in
  if decide (len `mod` (processes w * 4) = 0) then q else S q.

(** [Pool._get_tasks]: successive slices of [size] elements, until an
    empty one. *)
Fixpoint get_tasks_fuel {A} (fuel size : nat) (it : list A) : list (list A) :=
  match fuel with
  | 0 => []
  | S fuel' =>
      match take size it with
      | [] => []
      | x => x :: get_tasks_fuel fuel' size (drop size it)
      end
  end.

Definition get_tasks {A} (size : nat) (it : list A) : list (list A) :=
  get_tasks_fuel (S (length it)) size it.

Definition run_task (w : world) (t : task) : io Result :=
  Writer.write_record_from_list w
    (task_id t) (task_labels t) (task_data t) (task_out_path t).

(** One batch: [list(map(func, batch))]. *)
Definition run_batch (w : world) (batch : list task) : io (list Result) :=
  mapM (run_task w) batch.

Fixpoint run_batches (w : world) (batches : list (list task)) (tr : trace)
  : list (result (list Result)) * trace :=
  match batches with
  | [] => ([], tr)
  | b :: bs =>
      let '(r, tr') := run_batch w b tr in
      let '(rs, tr'') := run_batches w bs tr' in
      (r :: rs, tr'')
  end.

(** The outcome of the call: all results, or the exception of a batch
    that failed. *)
Fixpoint gather (outs : list (result (list Result))) : result (list Result) :=
  match outs with
  | [] => Ok []
  | Ok r :: rest => rs ← gather rest; Ok (r ++ rs)
  | Raise e :: _ => Raise e
  end.

Definition starmap (w : world) (tasks : list task) : io (list Result) :=
  λ tr,
    let batches := get_tasks (chunksize w (length tasks)) tasks in
    let '(outs, tr') := run_batches w batches tr in
    (gather outs, tr').

End Pool.

(** ** Label manifest and summary (write_labels, print_results, main) *)

Record summary := {
  overall_records : Z;
  overall_examples : Counter.counter;
  overall_negatives : Z
}.

Module Main.

Definition nl : string := String "010" EmptyString.

(** ["item {\n  id: %d\n  name:'%s'\n}\n" % (i + 1, cls)] *)
Definition label_item (cls : string) (i : Z) : string :=
  "item {" +:+ nl +:+ "  id: " +:+ pretty (i + 1)%Z +:+ nl +:+
  "  name:'" +:+ cls +:+ "'" +:+ nl +:+ "}" +:+ nl.

(** The text written to the label map file. *)
Definition label_txt (labels : Dict.dict) : string :=
  String.concat nl ((λ kv, label_item kv.1 kv.2) <$> labels).

Definition write_labels (w : world) (folder : string) (labels : Dict.dict)
  : io unit :=
  let label_name := path_join w folder "label.pbtxt" in
  if can_write w label_name
  then emit (ManifestWrite label_name (label_txt labels))
  else lift (Raise OSError).

(** The three totals [print_results] computes. *)
Definition print_results (results : list Result) : summary :=
  foldl (λ acc r,
           {| overall_records := (overall_records acc + record_count r)%Z;
              overall_examples :=
                Counter.iadd (overall_examples acc) (class_count r);
              overall_negatives :=
                (overall_negatives acc + negative_count r)%Z |})
        {| overall_records := 0; overall_examples := [];
           overall_negatives := 0 |}
        results.

Definition main (w : world) (a : args) : io summary :=
  let g := seed w 42 in
  '(tasks, labels) ← lift (Tasks.get_record_writing_tasks w a g);
  results ← Pool.starmap w tasks;
  write_labels w (folder a) labels;;
  mret (print_results results).

End Main.

(** ** A small environment to run the definitions on *)

Module Sample.

Definition join (a b : string) : string := a +:+ "/" +:+ b.

Definition box (x0 y0 x1 y1 : Z) : rect :=
  {| rect_0 := Num.PyInt x0; rect_1 := Num.PyInt y0;
     rect_2 := Num.PyInt x1; rect_3 := Num.PyInt y1 |}.

Definition picture : image :=
  {| im_width := 640; im_height := 480; im_channels := Ok 3%Z;
     im_png := "PNG" |}.

(** A folder [data] with three annotations: one box, two boxes (one of
    them partly outside the image) and no box; [zzz] is another
    annotation, of a class the folder does not have. *)
Definition annotations (p : string) : result (list rect * list string) :=
  if decide (p = "data/a.txt") then Ok ([box 10 20 320 240], ["dog"])
  else if decide (p = "data/b.txt")
  then Ok ([box (-5) 0 700 500; box 1 2 3 4], ["cat"; "dog"])
  else if decide (p = "data/c.txt") then Ok ([], [])
  else if decide (p = "zzz") then Ok ([box 1 2 3 4], ["owl"])
  else Raise OSError.

Definition tree : node :=
  Dir true [("a.txt", File); ("b.txt", File); ("c.txt", File);
            ("first_rects.txt", File); ("a.png", File);
            ("locked", Dir false [("d.txt", File)])].

Definition the_world : world :=
  {| fs_lookup p := if decide (p = "data") then Some tree
                    else if decide (p = "locked") then Some (Dir false [])
                    else None;
     path_join := join;
     path_basename p := p;
     path_dirname p := "";
     path_splitext p := (p, "");
     path_isfile p := false;
     read_first_line p := Ok "1,2,3,4,x";
     image_open p := Ok picture;
     read_rects := annotations;
     can_write p := true;
     seed z := z;
     randbelow g n := (0, g);
     cpu_count := 2 |}.

Definition the_args : args :=
  {| folder := "data"; number := 2; split := Num.float_one;
     eval := false; eval_folder := None |}.

Definition locked_args : args :=
  {| folder := "locked"; number := 10; split := Num.float_one;
     eval := false; eval_folder := None |}.

Definition labels : Dict.dict := [("cat", 0%Z); ("dog", 1%Z)].

Definition no_example : tf_example :=
  {| image_height := 0; image_width := 0; image_channels := 0;
     image_colorspace := ""; image_filename := ""; image_source_id := "";
     image_key := ""; image_encoded := ""; image_format := "";
     bbox_xmin := []; bbox_xmax := []; bbox_ymin := []; bbox_ymax := [];
     class_text := []; class_label := [] |}.

(** The record of [data/b.txt]. *)
Definition example_b : tf_example :=
  match Encoder.create_tf_example the_world labels "data/b.txt" with
  | Ok (example, _, _) => example
  | Raise _ => no_example
  end.

(** One shard of two files, written to an empty output. *)
Definition shard : result Result * trace :=
  Writer.write_record_from_list the_world "train-00" labels
    ["data/b.txt"; "data/c.txt"] "data/train-00.record" [].

Definition shard_result : Result :=
  match shard.1 with
  | Ok r => r
  | Raise _ =>
      {| res_id := ""; record_count := 0; class_count := [];
         negative_count := 0 |}
  end.

(** The tasks of a run on [data] with two shards and no eval set. *)
Definition the_tasks : list task :=
  match Tasks.get_record_writing_tasks the_world the_args 42%Z with
  | Ok (tasks, _) => tasks
  | Raise _ => []
  end.

Definition task_0 : task :=
  {| task_id := "train-00";
     task_labels := labels;
     task_data := ["data/b.txt"; "data/a.txt"];
     task_out_path := "data/train-00.record" |}.

End Sample.

(** ** The vocabulary of the properties *)

(** What the loop maintains after the files [pre] have been placed in
    [n] lists: list [k] holds, in order, the files at the indices
    [k], [k + n], [k + 2n], ... *)
Definition round_robin (n : nat) (pre : list string)
    (lists : list (list string)) : Prop :=
  length lists = n ∧
  (∀ k s, lists !! k = Some s → ∀ j, s !! j = pre !! (j * n + k)) ∧
  concat lists ≡ₚ pre.

(** The effective shard count the specification gives for a list of
    length [L] and a requested count [number]. *)
Definition effective_count (number : Z) (L : nat) : nat :=
  if decide (L = 0) then 0
  else Z.to_nat (Z.min (Z.max number 1) (Z.of_nat L)).

(** The class name [c] occurs in one of the annotation files. *)
Definition seen (w : world) (filenames : list string) (c : string) : Prop :=
  ∃ f rects classes,
    f ∈ filenames ∧ read_rects w f = Ok (rects, classes) ∧ c ∈ classes.

(** The box reader succeeds on every file of the list. *)
Definition readable (w : world) (filenames : list string) : Prop :=
  Forall (λ f, is_Ok (read_rects w f)) filenames.

(** One block of the manifest, as the file format gives it: the four
    lines [item {], [  id: <id>], [  name:'<name>'] and [}], each ended
    by a newline. *)
Definition manifest_block (id : nat) (name : string) : string :=
  "item {" +:+ Main.nl +:+
  "  id: " +:+ pretty id +:+ Main.nl +:+
  "  name:'" +:+ name +:+ "'" +:+ Main.nl +:+
  "}" +:+ Main.nl.

(** The number of boxes the reader finds in an annotation file. *)
Definition boxes (w : world) (p : string) : nat :=
  match read_rects w p with
  | Ok (rects, _) => length rects
  | Raise _ => 0
  end.

(** The invariant of an annotation: as many class names as boxes. *)
Definition well_formed (w : world) (p : string) : Prop :=
  match read_rects w p with
  | Ok (rects, classes) => length rects = length classes
  | Raise _ => True
  end.

(** The exception of the first file of [data] the encoder fails on. *)
Fixpoint first_failure (w : world) (labels : Dict.dict) (data : list string)
  : option exn :=
  match data with
  | [] => None
  | p :: rest =>
      match Encoder.create_tf_example w labels p with
      | Ok _ => first_failure w labels rest
      | Raise e => Some e
      end
  end.

(** The records of the files of [data] before the first failure. *)
Fixpoint encoded_prefix (w : world) (labels : Dict.dict) (data : list string)
  : list tf_example :=
  match data with
  | [] => []
  | p :: rest =>
      match Encoder.create_tf_example w labels p with
      | Ok (example, _, _) => example :: encoded_prefix w labels rest
      | Raise _ => []
      end
  end.

Definition is_record_event (ev : event) : Prop :=
  match ev with
  | ManifestWrite _ _ => False
  | _ => True
  end.

(** The shard writer of the task succeeds: the record file can be created
    and the encoder fails on no file of the task. *)
Definition task_ok (w : world) (t : task) : bool :=
  can_write w (task_out_path t) &&
  match first_failure w (task_labels t) (task_data t) with
  | None => true
  | Some _ => false
  end.

(** The root folder cannot be listed: it does not exist, is not a
    directory, or may not be read. *)
Definition can_list (w : world) (folder : string) : bool :=
  match fs_lookup w folder with
  | Some (Dir true _) => true
  | _ => false
  end.

Definition unreadable (w : world) (folder : string) : Prop :=
  can_list w folder = false.

Section numbers_vocabulary.
Import Num.
Local Open Scope Z_scope.

(** The exponent a mantissa [m] at exponent [e] is rounded at. *)
Definition round_exp (m e : Z) : Z :=
  Z.max e (fexp prec emax (Zdigits2 m + e)).

(** A zero or a finite number of the sign [s]. *)
Definition finite_with_sign (s : bool) (f : float) : Prop :=
  match f with
  | S754_zero s' | S754_finite s' _ _ => s' = s
  | _ => False
  end.

(** A coordinate is a number: not a NaN, and as an integer below
    [2 ^ 1023] in magnitude (so that the quotient is a float). *)
Definition is_number (x : pynum) : bool :=
  match x with
  | PyInt a => Z.abs a <? 2 ^ 1023
  | PyFloat S754_nan => false
  | PyFloat _ => true
  end.

Definition rect_is_number (r : rect) : bool :=
  is_number (rect_0 r) && is_number (rect_1 r) &&
  is_number (rect_2 r) && is_number (rect_3 r).

(** Clamping into [0, 1]: zero below zero, one above one, the value
    itself otherwise. *)
Definition clamp01 (q : float) : pynum :=
  if lt (PyFloat q) (PyInt 0) then PyInt 0
  else if lt (PyInt 1) (PyFloat q) then PyInt 1
  else PyFloat q.

(** [0 <= v <= 1] *)
Definition in_unit (v : pynum) : Prop :=
  le (PyInt 0) v = true ∧ le v (PyInt 1) = true.

(** The floor of the value of a float, where it has one. *)
Definition float_floor (f : float) : option Z :=
  match f with
  | S754_zero _ => Some 0
  | S754_finite s m e =>
      Some (if 0 <=? e then cond_Zopp s (Z.pos m) * 2 ^ e
            else cond_Zopp s (Z.pos m) / 2 ^ (- e))
  | _ => None
  end.

End numbers_vocabulary.

(** A normalized value [v] of the raw coordinate [x] in an image of
    dimension [dim]: the quotient [x / dim], clamped into [0, 1]. *)
Definition normalized (x : Num.pynum) (dim : Z) (v : Num.pynum) : Prop :=
  ∃ q, Num.truediv x dim = Ok q ∧ v = clamp01 q ∧ in_unit v.

(** The class names the reader finds in an annotation file. *)
Definition class_names (w : world) (p : string) : list string :=
  match read_rects w p with
  | Ok (_, classes) => classes
  | Raise _ => []
  end.

(** The class counter a shard writer accumulates over the files [data]. *)
Definition shard_counts (w : world) (data : list string) : Counter.counter :=
  foldl (λ c p, Counter.iadd c (Counter.of_list (class_names w p))) [] data.

(** The statistics the shard writer of a task returns. *)
Definition task_result (w : world) (t : task) : Result :=
  {| res_id := task_id t;
     record_count := Z.of_nat (length (task_data t));
     class_count := shard_counts w (task_data t);
     negative_count :=
       Z.of_nat (length (filter (λ p, boxes w p = 0) (task_data t))) |}.

(** A counter without negative counts. *)
Definition counter_nonneg (c : Counter.counter) : Prop :=
  Forall (λ kv, (0 ≤ kv.2)%Z) c.

(** A counter as the interpreter keeps it: every key once, no negative
    count. *)
Definition counter_wf (c : Counter.counter) : Prop :=
  NoDup c.*1 ∧ counter_nonneg c.

#[global] Instance counter_wf_dec c : Decision (counter_wf c) :=
  ltac:(unfold counter_wf, counter_nonneg; apply _).

(** The number of times [k] occurs in [l]. *)
Definition occurrences (k : string) (l : list string) : nat :=
  length (filter (λ x, x = k) l).

(** The sum of [f] over a list. *)
Definition sumZ {A} (f : A → Z) (l : list A) : Z :=
  foldr (λ x acc, (f x + acc)%Z) 0%Z l.

(** The annotation files of a run: those discovery collects in the train
    folder and, when there is one, in the eval folder. *)
Definition run_files (w : world) (a : args) : list string :=
  Discovery.collect w (folder a)
  ++ match eval_folder a with
     | Some ef => Discovery.collect w ef
     | None => []
     end.

(** What the shard writer of a task writes when it succeeds. *)
Definition task_events (w : world) (t : task) : list event :=
  [RecordOpen (task_out_path t)]
  ++ (RecordWrite (task_out_path t)
        <$> encoded_prefix w (task_labels t) (task_data t))
  ++ [RecordClose (task_out_path t)].

(** ** Corner cases to run the definitions on

    A picture without width, an annotation with a coordinate that is not
    a number, and one with a class name outside the vocabulary. *)

Module Corner.

Definition flat_picture : image :=
  {| im_width := 0; im_height := 480; im_channels := Ok 3%Z;
     im_png := "PNG" |}.

Definition nan_box : rect :=
  {| rect_0 := Num.PyFloat S754_nan; rect_1 := Num.PyInt 2;
     rect_2 := Num.PyInt 3; rect_3 := Num.PyInt 4 |}.

Definition annotations (p : string) : result (list rect * list string) :=
  if decide (p = "nan.txt") then Ok ([Sample.box 1 2 3 4; nan_box],
                                     ["cat"; "dog"])
  else if decide (p = "owl.txt")
  then Ok ([Sample.box 1 2 3 4; Sample.box 5 6 7 8; Sample.box 1 2 3 4],
           ["dog"; "owl"; "cat"])
  else if decide (p = "flat.txt") then Ok ([Sample.box 1 2 3 4], ["dog"])
  else Sample.annotations p.

Definition the_world : world :=
  {| fs_lookup := fs_lookup Sample.the_world;
     path_join := Sample.join;
     path_basename p := p;
     path_dirname p := "";
     path_splitext p := (p, "");
     path_isfile p := false;
     read_first_line p := Ok "1,2,3,4,x";
     image_open p := if decide (p = "/flat.txt.png") then Ok flat_picture
                     else Ok Sample.picture;
     read_rects := annotations;
     can_write p := true;
     seed z := z;
     randbelow g n := (0, g);
     cpu_count := 2 |}.

(** The sample folder where the label map cannot be created. *)
Definition no_manifest_world : world :=
  {| fs_lookup := fs_lookup Sample.the_world;
     path_join := Sample.join;
     path_basename p := p;
     path_dirname p := "";
     path_splitext p := (p, "");
     path_isfile p := false;
     read_first_line p := Ok "1,2,3,4,x";
     image_open p := Ok Sample.picture;
     read_rects := Sample.annotations;
     can_write p := bool_decide (p ≠ "data/label.pbtxt");
     seed z := z;
     randbelow g n := (0, g);
     cpu_count := 2 |}.

(** The record of [nan.txt]. *)
Definition example_nan : tf_example :=
  match Encoder.create_tf_example the_world Sample.labels "nan.txt" with
  | Ok (example, _, _) => example
  | Raise _ => Sample.no_example
  end.

End Corner.

(** * Properties *)

Example split_into_lists_5_2 :
  Partition.split_into_lists 2 ["a"; "b"; "c"; "d"; "e"]
  = Ok [["a"; "c"; "e"]; ["b"; "d"]].
Proof. reflexivity. Qed.

Example split_into_lists_scarce :
  Partition.split_into_lists 10 ["a"; "b"] = Ok [["a"]; ["b"]].
Proof. reflexivity. Qed.

Example split_into_lists_empty :
  Partition.split_into_lists 10 [] = Ok [].
Proof. reflexivity. Qed.

(** ** Round-robin partition *)

Section partition_facts.
Import Partition.

Lemma round_robin_lengths n k (pre s : list string) :
  (∀ j, s !! j = pre !! (j * n + k)) →
  ∀ j, j < length s ↔ j * n + k < length pre.
Proof.
  intros Hs j. rewrite <- !lookup_lt_is_Some, Hs. done.
Qed.

Lemma concat_alter_snoc (lists : list (list string)) k x :
  k < length lists →
  concat (alter (λ l, l ++ [x]) k lists) ≡ₚ concat lists ++ [x].
Proof.
  revert k. induction lists as [|l lists IH]; intros [|k] Hk; simpl in *;
    try lia.
  - rewrite <- !(assoc_L (++)). f_equiv. apply Permutation_app_comm.
  - rewrite <- (assoc_L (++)). f_equiv. apply IH. lia.
Qed.

Lemma round_robin_step n pre lists x :
  0 < n → round_robin n pre lists →
  round_robin n (pre ++ [x])
    (alter (λ l, l ++ [x]) (length pre `mod` n) lists).
Proof.
  intros Hn (Hlen & Hidx & Hperm).
  pose proof (Nat.mod_upper_bound (length pre) n ltac:(lia)) as Hk0.
  pose proof (Nat.div_mod_eq (length pre) n) as Hdm.
  set (k0 := length pre `mod` n) in *. set (q := length pre `div` n) in *.
  split_and!.
  - by rewrite length_alter.
  - intros k s' Hs' j.
    destruct (decide (k = k0)) as [->|Hne].
    + rewrite list_lookup_alter_eq in Hs'.
      destruct (lists !! k0) as [s0|] eqn:Hs0; simplify_eq/=.
      pose proof (round_robin_lengths _ _ _ _ (Hidx _ _ Hs0)) as Hl.
      assert (length s0 = q) as Hq.
      { pose proof (Hl (length s0)). pose proof (Hl q). nia. }
      destruct (Nat.lt_total j q) as [Hj|[->|Hj]].
      * rewrite !lookup_app_l by nia. by apply Hidx.
      * rewrite !list_lookup_middle by nia. done.
      * rewrite !lookup_ge_None_2; [done| |];
          rewrite length_app; simpl; nia.
    + rewrite list_lookup_alter_ne in Hs' by done.
      assert (k < n) by (rewrite <- Hlen; by eapply lookup_lt_Some).
      assert (j * n + k ≠ length pre) as Hneq.
      { intros Heq. apply Hne. unfold k0.
        apply (Nat.mod_unique _ _ j); lia. }
      rewrite (Hidx _ _ Hs').
      destruct (decide (j * n + k < length pre)).
      * by rewrite lookup_app_l.
      * rewrite !lookup_ge_None_2; [done| |];
          rewrite ?length_app; simpl; lia.
  - rewrite concat_alter_snoc by lia. by rewrite Hperm.
Qed.

Lemma distribute_round_robin nZ rest pre lists :
  (0 < nZ)%Z → round_robin (Z.to_nat nZ) pre lists →
  ∃ lists', distribute nZ (length pre) rest lists = Ok lists' ∧
            round_robin (Z.to_nat nZ) (pre ++ rest) lists'.
Proof.
  intros Hn. revert pre lists.
  induction rest as [|x rest IH]; intros pre lists Hinv; simpl.
  - exists lists. by rewrite (right_id_L [] (++)).
  - unfold py_mod. destruct (Z.eqb_spec nZ 0) as [|_]; [lia|]. simpl.
    pose proof (Z.mod_pos_bound (Z.of_nat (length pre)) nZ Hn) as Hb.
    assert (length lists = Z.to_nat nZ) as Hlen by apply Hinv.
    unfold append_at.
    destruct (Z.ltb_spec (Z.of_nat (length pre) `mod` nZ) 0); [lia|].
    destruct (Z.ltb_spec (Z.of_nat (length pre) `mod` nZ) 0); [lia|].
    destruct (Z.leb_spec (Z.of_nat (length lists))
                (Z.of_nat (length pre) `mod` nZ)); [lia|]. simpl.
    assert (Z.to_nat (Z.of_nat (length pre) `mod` nZ)
            = length pre `mod` Z.to_nat nZ) as ->.
    { rewrite Z2Nat.inj_mod by lia. by rewrite Nat2Z.id. }
    apply round_robin_step with (x := x) in Hinv; [|lia].
    destruct (IH (pre ++ [x]) _ Hinv) as (lists' & Hrun & Hinv').
    rewrite length_app, Nat.add_1_r in Hrun. simpl in Hrun.
    exists lists'. split; [done|]. by rewrite <- (assoc_L (++)) in Hinv'.
Qed.

Lemma round_robin_empty n : round_robin n [] (replicate n []).
Proof.
  split_and!.
  - by rewrite length_replicate.
  - intros k s [-> _]%lookup_replicate j. by rewrite !lookup_nil.
  - induction n; simpl; done.
Qed.

Lemma record_number_effective number filenames :
  Z.to_nat (record_number number filenames)
  = effective_count number (length filenames).
Proof.
  unfold record_number, effective_count. case_decide as HL; [|done].
  rewrite HL. lia.
Qed.

Lemma split_into_lists_round_robin number filenames :
  ∃ shards, split_into_lists number filenames = Ok shards ∧
    round_robin (effective_count number (length filenames)) filenames shards.
Proof.
  unfold split_into_lists. rewrite <- record_number_effective.
  destruct filenames as [|x rest].
  - assert (record_number number [] = 0%Z) as ->
      by (unfold record_number; simpl; lia).
    exists []. split; [done|]. apply (round_robin_empty 0).
  - set (fs := x :: rest). set (n := record_number number fs).
    assert (0 < n)%Z as Hn by (unfold n, record_number, fs; simpl; lia).
    apply (distribute_round_robin n fs [] _ Hn), round_robin_empty.
Qed.

Lemma round_robin_lookup n filenames shards i f :
  0 < n → round_robin n filenames shards → filenames !! i = Some f →
  ∃ s, shards !! (i `mod` n) = Some s ∧ s !! (i `div` n) = Some f.
Proof.
  intros Hn (Hlen & Hidx & _) Hf.
  pose proof (Nat.mod_upper_bound i n ltac:(lia)) as Hk.
  destruct (lookup_lt_is_Some_2 shards (i `mod` n)) as [s Hs]; [lia|].
  exists s. split; [done|]. rewrite (Hidx _ _ Hs), <- Hf. f_equal.
  pose proof (Nat.div_mod_eq i n). lia.
Qed.

Lemma round_robin_balanced n filenames shards s1 s2 :
  round_robin n filenames shards → s1 ∈ shards → s2 ∈ shards →
  length s1 ≤ length s2 + 1.
Proof.
  intros (Hlen & Hidx & _) [k1 H1]%list_elem_of_lookup
    [k2 H2]%list_elem_of_lookup.
  pose proof (lookup_lt_Some _ _ _ H1). pose proof (lookup_lt_Some _ _ _ H2).
  pose proof (round_robin_lengths _ _ _ _ (Hidx _ _ H1)) as Hl1.
  pose proof (round_robin_lengths _ _ _ _ (Hidx _ _ H2)) as Hl2.
  destruct (decide (length s1 ≤ length s2 + 1)) as [|Hgt]; [done|].
  pose proof (proj1 (Hl1 (length s1 - 1)) ltac:(lia)).
  pose proof (Hl2 (length s2)). nia.
Qed.

End partition_facts.

(** ** The tasks of one split *)

Lemma make_tasks_data w folder name labels lists :
  task_data <$> Tasks.make_tasks w folder name labels lists = lists.
Proof.
  unfold Tasks.make_tasks. apply list_eq. intros i.
  rewrite list_lookup_fmap, list_lookup_imap. by destruct (lists !! i).
Qed.

Lemma make_tasks_labels w folder name labels lists t :
  t ∈ Tasks.make_tasks w folder name labels lists → task_labels t = labels.
Proof.
  unfold Tasks.make_tasks. intros [i Hi]%list_elem_of_lookup.
  rewrite list_lookup_imap in Hi.
  destruct (lists !! i); simplify_eq/=; done.
Qed.

(** C1. For a file list of length [L] and a requested count [number], the
    task builder produces, for that split, [min(max(number, 1), L)] shard
    tasks when [L > 0] and none when [L = 0]; the file at index [i] is in
    the shard of index [i mod n] (at position [i / n]), so the shards
    together hold every input file exactly once, and the sizes of two
    shards differ by at most one. *)
Theorem shard_partition w folder name number labels filenames :
  ∃ tasks n,
    Tasks.tasks_for w folder name number labels filenames = Ok tasks ∧
    length tasks = n ∧
    (length filenames = 0 → n = 0) ∧
    (0 < length filenames →
     Z.of_nat n = Z.min (Z.max number 1) (Z.of_nat (length filenames))) ∧
    (∀ i f, filenames !! i = Some f →
       ∃ t, tasks !! (i `mod` n) = Some t ∧
            task_data t !! (i `div` n) = Some f) ∧
    concat (task_data <$> tasks) ≡ₚ filenames ∧
    (∀ t1 t2, t1 ∈ tasks → t2 ∈ tasks →
       length (task_data t1) ≤ length (task_data t2) + 1).
Proof.
  destruct (split_into_lists_round_robin number filenames)
    as (shards & Hrun & Hrr).
  set (n := effective_count number (length filenames)) in *.
  exists (Tasks.make_tasks w folder name labels shards), n.
  pose proof (make_tasks_data w folder name labels shards) as Hdata.
  assert (length (Tasks.make_tasks w folder name labels shards) = n) as Hlen.
  { rewrite <- (length_fmap task_data), Hdata. apply Hrr. }
  split_and!.
  - unfold Tasks.tasks_for. by rewrite Hrun.
  - done.
  - intros HL. unfold n, effective_count. by rewrite decide_True.
  - intros HL. unfold n, effective_count. rewrite decide_False by lia. lia.
  - intros i f Hf.
    assert (0 < n) as Hn.
    { apply lookup_lt_Some in Hf. unfold n, effective_count.
      rewrite decide_False by lia. lia. }
    destruct (round_robin_lookup _ _ _ _ _ Hn Hrr Hf) as (s & Hs & Hsf).
    rewrite <- Hdata, list_lookup_fmap in Hs.
    destruct (Tasks.make_tasks w folder name labels shards !! (i `mod` n))
      as [t|]; simplify_eq/=. by exists t.
  - rewrite Hdata. apply Hrr.
  - intros t1 t2 H1 H2.
    apply (round_robin_balanced _ _ _ _ _ Hrr); rewrite <- Hdata;
      by apply list_elem_of_fmap_2.
Qed.

(** ** The order on strings *)

Section string_order.
Import PySet.

Lemma leb_cons a b s t :
  String.leb (String a s) (String b t) =
  match (N_of_ascii a ?= N_of_ascii b)%N with
  | Eq => String.leb s t
  | Lt => true
  | Gt => false
  end.
Proof.
  unfold String.leb. simpl. unfold Ascii.compare.
  by destruct (N_of_ascii a ?= N_of_ascii b)%N.
Qed.

Lemma str_le_trans a b c : str_le a b → str_le b c → str_le a c.
Proof.
  unfold str_le. revert b c.
  induction a as [|x a IH]; intros [|y b] [|z c]; try done.
  rewrite !leb_cons.
  destruct (N.compare_spec (N_of_ascii x) (N_of_ascii y)) as [Hxy|Hxy|Hxy];
    destruct (N.compare_spec (N_of_ascii y) (N_of_ascii z)) as [Hyz|Hyz|Hyz];
    destruct (N.compare_spec (N_of_ascii x) (N_of_ascii z)) as [Hxz|Hxz|Hxz];
    try done; try lia.
  apply IH.
Qed.

#[global] Instance str_le_transitive : Transitive str_le.
Proof. intros a b c. apply str_le_trans. Qed.

#[global] Instance str_le_total : Total str_le.
Proof. intros a b. apply String.leb_total. Qed.

#[global] Instance str_le_antisymm : AntiSymm (=) str_le.
Proof. intros a b. apply String.leb_antisym. Qed.

Lemma sorted_Sorted s : Sorted str_le (sorted s).
Proof. apply Sorted_merge_sort. apply _. Qed.

Lemma sorted_Permutation s : sorted s ≡ₚ s.
Proof. apply merge_sort_Permutation. Qed.

(** Sorting forgets the order the set was iterated in. *)
Lemma sorted_unique s t :
  NoDup s → NoDup t → (∀ x, x ∈ s ↔ x ∈ t) → sorted s = sorted t.
Proof.
  intros Hs Ht Hst. apply (Sorted_unique str_le); try apply sorted_Sorted.
  rewrite !sorted_Permutation. by apply NoDup_Permutation.
Qed.

End string_order.

(** ** Sets and dictionaries *)

Lemma set_add_NoDup s x : NoDup s → NoDup (PySet.add s x).
Proof.
  intros Hs. unfold PySet.add. case_decide; [done|].
  apply NoDup_app. split_and!; [done| |apply NoDup_singleton].
  intros y Hy ->%list_elem_of_singleton. done.
Qed.

Lemma set_add_elem s x y : y ∈ PySet.add s x ↔ y ∈ s ∨ y = x.
Proof.
  unfold PySet.add. case_decide.
  - naive_solver.
  - rewrite elem_of_app, list_elem_of_singleton. done.
Qed.

Lemma set_update_NoDup s t : NoDup s → NoDup (PySet.update s t).
Proof.
  unfold PySet.update. revert s.
  induction t as [|x t IH]; intros s Hs; simpl; [done|].
  by apply IH, set_add_NoDup.
Qed.

Lemma set_update_elem s t y : y ∈ PySet.update s t ↔ y ∈ s ∨ y ∈ t.
Proof.
  unfold PySet.update. revert s.
  induction t as [|x t IH]; intros s; simpl.
  - rewrite elem_of_nil. naive_solver.
  - rewrite IH, set_add_elem, elem_of_cons. naive_solver.
Qed.

Lemma set_of_list_elem l y : y ∈ PySet.of_list l ↔ y ∈ l.
Proof.
  unfold PySet.of_list. rewrite (set_update_elem [] l), elem_of_nil.
  naive_solver.
Qed.

Lemma dict_set_fresh d k v : k ∉ d.*1 → Dict.set d k v = d ++ [(k, v)].
Proof.
  induction d as [|[k' v'] d IH]; simpl; [done|].
  rewrite not_elem_of_cons. intros [Hne Hk].
  rewrite decide_False by done. by rewrite IH.
Qed.

Lemma dict_of_enumerate d i names :
  NoDup names → (∀ k, k ∈ names → k ∉ d.*1) →
  Dict.of_enumerate d i names
  = d ++ zip names (Z.of_nat <$> seq i (length names)).
Proof.
  revert d i. induction names as [|x names IH]; intros d i Hnd Hfresh; simpl.
  - by rewrite (right_id_L [] (++)).
  - apply NoDup_cons in Hnd as [Hx Hnd].
    rewrite dict_set_fresh by (apply Hfresh; left).
    rewrite IH; [by rewrite <- (assoc_L (++))|done|].
    intros k Hk. rewrite fmap_app, elem_of_app. simpl.
    rewrite list_elem_of_singleton. intros [Hd| ->]; [|done].
    by apply (Hfresh k); [right|].
Qed.

Lemma dict_get_zip names i j c :
  NoDup names → names !! j = Some c →
  Dict.get (zip names (Z.of_nat <$> seq i (length names))) c
  = Some (Z.of_nat (i + j)).
Proof.
  revert i j. induction names as [|x names IH]; intros i j Hnd Hj; [done|].
  apply NoDup_cons in Hnd as [Hx Hnd]. simpl.
  destruct j as [|j]; simplify_eq/=.
  - rewrite decide_True by done. do 2 f_equal. lia.
  - rewrite decide_False.
    + etrans; [apply (IH (S i) j); done|]. do 2 f_equal. lia.
    + intros ->. apply Hx. by eapply list_elem_of_lookup_2.
Qed.

Lemma dict_get_is_Some d k : is_Some (Dict.get d k) ↔ k ∈ d.*1.
Proof.
  induction d as [|[k' v'] d IH]; simpl.
  - rewrite elem_of_nil. split; [by intros [? ?]|done].
  - rewrite elem_of_cons. case_decide; [naive_solver|].
    rewrite IH. naive_solver.
Qed.

(** ** Label vocabulary *)

Lemma seen_nil w c : ¬ seen w [] c.
Proof. intros (f & ? & ? & Hf & _). by apply elem_of_nil in Hf. Qed.

Lemma seen_cons w f fs c :
  seen w (f :: fs) c ↔
  (∃ rects classes, read_rects w f = Ok (rects, classes) ∧ c ∈ classes) ∨
  seen w fs c.
Proof.
  unfold seen. setoid_rewrite elem_of_cons. naive_solver.
Qed.

Lemma seen_app w fs1 fs2 c : seen w (fs1 ++ fs2) c ↔ seen w fs1 c ∨ seen w fs2 c.
Proof.
  unfold seen. setoid_rewrite elem_of_app. naive_solver.
Qed.

Lemma gather_spec w acc filenames :
  readable w filenames → NoDup acc →
  ∃ labels, Labels.gather w acc filenames = Ok labels ∧ NoDup labels ∧
            ∀ c, c ∈ labels ↔ c ∈ acc ∨ seen w filenames c.
Proof.
  intros Hread. revert acc.
  induction Hread as [|f fs [[rects classes] Hf] Hread IH]; intros acc Hacc.
  - exists acc. split_and!; [done..|]. intros c.
    pose proof (seen_nil w c). naive_solver.
  - simpl. rewrite Hf. simpl.
    destruct (IH (PySet.update acc (PySet.of_list classes)))
      as (labels & Hrun & Hnd & Hmem); [by apply set_update_NoDup|].
    exists labels. split_and!; [done..|]. intros c.
    rewrite Hmem, set_update_elem, set_of_list_elem, seen_cons.
    split.
    + intros [[?|?]|?]; eauto 10.
    + intros [?|[(rects' & classes' & Hf' & Hc)|?]]; eauto.
      rewrite Hf in Hf'. simplify_eq. eauto.
Qed.

Lemma get_labels_spec w filenames :
  readable w filenames →
  ∃ names,
    Labels.get_labels_from_filenames w filenames
    = Ok (zip names (Z.of_nat <$> seq 0 (length names))) ∧
    Sorted PySet.str_le names ∧ NoDup names ∧
    (∀ c, c ∈ names ↔ seen w filenames c).
Proof.
  intros Hread.
  destruct (gather_spec w [] filenames Hread (NoDup_nil_2))
    as (labels & Hrun & Hnd & Hmem).
  exists (PySet.sorted labels).
  assert (NoDup (PySet.sorted labels)) as Hnd'
    by by rewrite sorted_Permutation.
  split_and!.
  - unfold Labels.get_labels_from_filenames. rewrite Hrun. simpl.
    f_equal. rewrite dict_of_enumerate; [done..|]. intros k _. apply not_elem_of_nil.
  - apply sorted_Sorted.
  - done.
  - intros c. rewrite sorted_Permutation, Hmem, elem_of_nil. naive_solver.
Qed.

(** C3. The vocabulary built from a list of annotation files gives the
    [K] distinct class names the contiguous ids [0 .. K-1], in the
    ascending order of the names; two file lists (of the same run or of
    two runs) with the same set of class names get the same mapping. *)
Theorem label_vocabulary w filenames :
  readable w filenames →
  ∃ names,
    let labels := zip names (Z.of_nat <$> seq 0 (length names)) in
    Labels.get_labels_from_filenames w filenames = Ok labels ∧
    Sorted PySet.str_le names ∧ NoDup names ∧
    (∀ c, c ∈ names ↔ seen w filenames c) ∧
    (∀ i c, names !! i = Some c → Dict.getitem labels c = Ok (Z.of_nat i)) ∧
    (∀ w' filenames',
       readable w' filenames' →
       (∀ c, seen w filenames c ↔ seen w' filenames' c) →
       Labels.get_labels_from_filenames w' filenames' = Ok labels).
Proof.
  intros Hread.
  destruct (get_labels_spec w filenames Hread)
    as (names & Hrun & Hsorted & Hnd & Hmem).
  exists names. split_and!; try done.
  - intros i c Hc. unfold Dict.getitem.
    by rewrite (dict_get_zip names 0 i c Hnd Hc).
  - intros w' filenames' Hread' Hsame.
    destruct (get_labels_spec w' filenames' Hread')
      as (names' & Hrun' & Hsorted' & Hnd' & Hmem').
    assert (names' = names) as ->; [|done].
    apply (Sorted_unique PySet.str_le); [done..|].
    apply NoDup_Permutation; [done..|].
    intros c. by rewrite Hmem, Hmem', Hsame.
Qed.

Lemma label_vocabulary_witness :
  ∃ names,
    let labels := zip names (Z.of_nat <$> seq 0 (length names)) in
    Labels.get_labels_from_filenames Sample.the_world
      ["data/b.txt"; "data/a.txt"; "data/c.txt"] = Ok labels ∧
    Sorted PySet.str_le names ∧ NoDup names ∧
    (∀ c, c ∈ names ↔
          seen Sample.the_world ["data/b.txt"; "data/a.txt"; "data/c.txt"] c) ∧
    (∀ i c, names !! i = Some c → Dict.getitem labels c = Ok (Z.of_nat i)) ∧
    (∀ w' filenames',
       readable w' filenames' →
       (∀ c, seen Sample.the_world
               ["data/b.txt"; "data/a.txt"; "data/c.txt"] c
             ↔ seen w' filenames' c) →
       Labels.get_labels_from_filenames w' filenames' = Ok labels).
Proof.
  apply (label_vocabulary Sample.the_world
           ["data/b.txt"; "data/a.txt"; "data/c.txt"]).
  repeat constructor; eexists; reflexivity.
Defined.

(** ** Label manifest *)

Lemma pretty_Z_of_nat (n : nat) : pretty (Z.of_nat n) = pretty n.
Proof. by destruct n. Qed.

Lemma label_item_block cls (i : nat) :
  Main.label_item cls (Z.of_nat i) = manifest_block (S i) cls.
Proof.
  unfold Main.label_item, manifest_block.
  replace (Z.of_nat i + 1)%Z with (Z.of_nat (S i)) by lia.
  by rewrite pretty_Z_of_nat.
Qed.

Lemma label_items_blocks names i :
  (λ kv, Main.label_item kv.1 kv.2)
    <$> zip names (Z.of_nat <$> seq i (length names))
  = zip_with manifest_block (seq (S i) (length names)) names.
Proof.
  revert i. induction names as [|x names IH]; intros i; [done|].
  cbn -[Main.label_item manifest_block]. rewrite label_item_block.
  f_equal. apply IH.
Qed.

Example manifest_block_cat :
  manifest_block 1 "cat" = "item {
  id: 1
  name:'cat'
}
".
Proof. reflexivity. Qed.

(** C8. For a vocabulary of [K] classes the manifest holds one block per
    class, of the form [item {\n  id: <int>\n  name:'<string>'\n}\n],
    joined by a newline (so that a blank line separates two blocks); the
    id of a class is its vocabulary id plus one, so the ids are
    [1 .. K]. *)
Theorem manifest_format w folder names tr :
  can_write w (path_join w folder "label.pbtxt") = true →
  Main.write_labels w folder
    (zip names (Z.of_nat <$> seq 0 (length names))) tr
  = (Ok (),
     tr ++ [ManifestWrite (path_join w folder "label.pbtxt")
              (String.concat Main.nl
                 (zip_with manifest_block (seq 1 (length names)) names))]).
Proof.
  intros Hw. unfold Main.write_labels. rewrite Hw.
  unfold Main.label_txt. by rewrite label_items_blocks.
Qed.

Lemma manifest_format_witness :
  Main.write_labels Sample.the_world "data" [("cat", 0%Z); ("dog", 1%Z)] []
  = (Ok (),
     [ManifestWrite "data/label.pbtxt"
        (manifest_block 1 "cat" +:+ Main.nl +:+ manifest_block 2 "dog")]).
Proof.
  apply (manifest_format Sample.the_world "data" ["cat"; "dog"] []).
  reflexivity.
Defined.

(** ** The result monad *)

Lemma bind_Ok {A B} (m : result A) (f : A → result B) b :
  m ≫= f = Ok b ↔ ∃ a, m = Ok a ∧ f a = Ok b.
Proof. destruct m; simpl; naive_solver. Qed.

Lemma bind_Raise {A B} (m : result A) (f : A → result B) e :
  m ≫= f = Raise e ↔ m = Raise e ∨ ∃ a, m = Ok a ∧ f a = Raise e.
Proof. destruct m; simpl; naive_solver. Qed.

Lemma mapM_Ok_length {A B} (f : A → result B) l k :
  mapM f l = Ok k → length k = length l.
Proof.
  revert k. induction l as [|x l IH]; intros k; simpl.
  - by intros [= <-].
  - intros (y & _ & (k' & Hk' & [= <-])%bind_Ok)%bind_Ok.
    simpl. f_equal. by apply IH.
Qed.

Lemma mapM_Ok_Forall2 {A B} (f : A → result B) l k :
  mapM f l = Ok k ↔ Forall2 (λ x y, f x = Ok y) l k.
Proof.
  revert k. induction l as [|x l IH]; intros k; simpl.
  - split; [intros [= <-]; constructor|by inversion 1].
  - rewrite bind_Ok. setoid_rewrite bind_Ok. setoid_rewrite IH. split.
    + intros (y & Hy & k' & Hk' & [= <-]). by constructor.
    + inversion 1; simplify_eq. eauto 10.
Qed.

Lemma mapM_is_Ok {A B} (f : A → result B) l :
  Forall (λ x, is_Ok (f x)) l → is_Ok (mapM f l).
Proof.
  induction 1 as [|x l [y Hy] _ [k Hk]]; simpl.
  - by eexists.
  - rewrite Hy. simpl. rewrite Hk. by eexists.
Qed.

(** ** Record encoder *)

Lemma create_tf_example_Ok w labels p example count is_negative :
  Encoder.create_tf_example w labels p = Ok (example, count, is_negative) →
  ∃ rects classes,
    read_rects w p = Ok (rects, classes) ∧
    length (bbox_xmin example) = length rects ∧
    length (bbox_xmax example) = length rects ∧
    length (bbox_ymin example) = length rects ∧
    length (bbox_ymax example) = length rects ∧
    class_text example = classes ∧
    mapM (Dict.getitem labels) classes = Ok (class_label example) ∧
    count = Counter.of_list classes ∧
    is_negative = bool_decide (length rects = 0).
Proof.
  unfold Encoder.create_tf_example.
  intros (first & _ & (im & _ & (channels & _ & H)%bind_Ok)%bind_Ok)%bind_Ok.
  apply bind_Ok in H as ([rects classes] & Hrects & H).
  apply bind_Ok in H as (xmins & Hxmins%mapM_Ok_length & H).
  apply bind_Ok in H as (xmaxs & Hxmaxs%mapM_Ok_length & H).
  apply bind_Ok in H as (ymins & Hymins%mapM_Ok_length & H).
  apply bind_Ok in H as (ymaxs & Hymaxs%mapM_Ok_length & H).
  apply bind_Ok in H as (class_ids & Hids & H).
  simplify_eq/=. exists rects, classes. split_and!; done.
Qed.

(** C10. When the box reader returns [n] boxes and [n] class names, the
    six per-box lists of the emitted record all have length [n]. *)
Theorem record_parallel_lists w labels p rects classes n
    example count is_negative :
  read_rects w p = Ok (rects, classes) →
  length rects = n → length classes = n →
  Encoder.create_tf_example w labels p = Ok (example, count, is_negative) →
  length (bbox_xmin example) = n ∧ length (bbox_xmax example) = n ∧
  length (bbox_ymin example) = n ∧ length (bbox_ymax example) = n ∧
  length (class_text example) = n ∧ length (class_label example) = n.
Proof.
  intros Hread Hrects Hclasses Hrun.
  apply create_tf_example_Ok in Hrun
    as (rects' & classes' & Hread' & ? & ? & ? & ? & ? & Hids & _).
  rewrite Hread in Hread'. simplify_eq.
  apply mapM_Ok_length in Hids. split_and!; congruence.
Qed.

(** ** Counters *)

Lemma counter_total_set c k v :
  Counter.total (Dict.set c k (Counter.count c k + v)%Z)
  = (Counter.total c + v)%Z.
Proof.
  unfold Counter.count. induction c as [|[k' v'] c IH]; simpl.
  - lia.
  - case_decide; simpl; [lia|]. rewrite IH. lia.
Qed.

Lemma counter_total_of_list l :
  Counter.total (Counter.of_list l) = Z.of_nat (length l).
Proof.
  unfold Counter.of_list.
  enough (∀ c, Counter.total
                 (foldl (λ c k, Dict.set c k (Counter.count c k + 1)%Z) c l)
               = (Counter.total c + Z.of_nat (length l))%Z) as H
    by by rewrite H.
  induction l as [|x l IH]; intros c; simpl; [lia|].
  rewrite IH, counter_total_set. lia.
Qed.

(** ** Shard writer *)

Lemma first_failure_None w labels data :
  first_failure w labels data = None ↔
  Forall (λ p, is_Ok (Encoder.create_tf_example w labels p)) data.
Proof.
  induction data as [|p data IH]; simpl.
  - split; [constructor|done].
  - rewrite Forall_cons, <- IH.
    destruct (Encoder.create_tf_example w labels p) as [r|e].
    + split; [intros; split; [by exists r|done]|naive_solver].
    + split; [done|]. by intros [[? ?] _].
Qed.

Lemma first_failure_Some w labels data e :
  first_failure w labels data = Some e ↔
  ∃ pre p post,
    data = pre ++ p :: post ∧
    Forall (λ p, is_Ok (Encoder.create_tf_example w labels p)) pre ∧
    Encoder.create_tf_example w labels p = Raise e.
Proof.
  induction data as [|p data IH]; simpl.
  - split; [done|]. intros (pre & ? & ? & ? & _). by destruct pre.
  - destruct (Encoder.create_tf_example w labels p) as [r|e'] eqn:Hp.
    + rewrite IH. split.
      * intros (pre & q & post & -> & Hpre & Hq).
        exists (p :: pre), q, post. split_and!; [done| |done].
        constructor; [by exists r|done].
      * intros ([|p' pre] & q & post & Heq & Hpre & Hq); simplify_eq/=;
          [congruence|].
        apply Forall_cons in Hpre as [_ Hpre]. eauto 10.
    + split.
      * intros [= ->]. exists [], p, data. by split_and!.
      * intros ([|p' pre] & q & post & Heq & Hpre & Hq); simplify_eq/=;
          [congruence|].
        apply Forall_cons in Hpre as [[? ?] _]. congruence.
Qed.

Lemma io_bind_lift_Ok {A B} (a : A) (f : A → io B) tr :
  (lift (Ok a) ≫= f) tr = f a tr.
Proof. done. Qed.

Lemma io_bind_lift_Raise {A B} e (f : A → io B) tr :
  (lift (Raise e) ≫= f) tr = (Raise e, tr).
Proof. done. Qed.

Lemma io_bind_emit {B} ev (f : () → io B) tr :
  (emit ev ≫= f) tr = f () (tr ++ [ev]).
Proof. done. Qed.

Lemma io_bind_run {A B} (m : io A) (f : A → io B) tr :
  (m ≫= f) tr =
  match m tr with
  | (Ok a, tr') => f a tr'
  | (Raise e, tr') => (Raise e, tr')
  end.
Proof. done. Qed.

Lemma write_loop_spec w labels out_path data examples_count negatives tr :
  (Writer.write_loop w labels out_path data examples_count negatives tr).2
  = tr ++ (RecordWrite out_path <$> encoded_prefix w labels data) ∧
  match first_failure w labels data with
  | Some e =>
      (Writer.write_loop w labels out_path data examples_count negatives tr).1
      = Raise e
  | None =>
      ∃ examples_count',
        (Writer.write_loop w labels out_path data examples_count negatives tr).1
        = Ok (examples_count',
              (negatives
               + Z.of_nat (length (filter (λ p, boxes w p = 0%nat) data)))%Z)
  end.
Proof.
  revert examples_count negatives tr.
  induction data as [|p data IH]; intros examples_count negatives tr.
  - simpl. rewrite (right_id_L [] (++)). split; [done|].
    exists examples_count. do 2 f_equal. lia.
  - cbn [Writer.write_loop first_failure encoded_prefix].
    destruct (Encoder.create_tf_example w labels p)
      as [[[example count] is_negative]|e] eqn:Hp.
    + rewrite io_bind_lift_Ok. cbv beta iota. rewrite io_bind_emit.
      specialize (IH (Counter.iadd examples_count count)
                    (negatives + (if is_negative then 1 else 0))%Z
                    (tr ++ [RecordWrite out_path example])) as [IHtr IHres].
      split.
      * rewrite IHtr. by rewrite <- (assoc_L (++)).
      * apply create_tf_example_Ok in Hp
          as (rects & classes & Hread & _ & _ & _ & _ & _ & _ & _ & ->).
        destruct (first_failure w labels data); [done|].
        destruct IHres as [ec' ->]. exists ec'. do 2 f_equal.
        assert (boxes w p = length rects) as Hb
          by (unfold boxes; by rewrite Hread).
        rewrite filter_cons, Hb.
        destruct (decide (length rects = 0%nat)).
        -- rewrite bool_decide_eq_true_2 by done. simpl. lia.
        -- rewrite bool_decide_eq_false_2 by done. lia.
    + rewrite io_bind_lift_Raise. simpl. by rewrite (right_id_L [] (++)).
Qed.

(** What one shard writer does: it opens the record file, appends the
    records of the files before the first failure, closes the file, and
    returns the statistics or raises the exception of that failure. *)
Lemma write_record_from_list_spec w id labels data out_path tr :
  can_write w out_path = true →
  (Writer.write_record_from_list w id labels data out_path tr).2
  = tr ++ [RecordOpen out_path]
       ++ (RecordWrite out_path <$> encoded_prefix w labels data)
       ++ [RecordClose out_path] ∧
  match first_failure w labels data with
  | Some e =>
      (Writer.write_record_from_list w id labels data out_path tr).1 = Raise e
  | None =>
      ∃ examples_count,
        (Writer.write_record_from_list w id labels data out_path tr).1
        = Ok {| res_id := id;
                record_count := Z.of_nat (length data);
                class_count := examples_count;
                negative_count :=
                  Z.of_nat (length (filter (λ p, boxes w p = 0%nat) data)) |}
  end.
Proof.
  intros Hw. unfold Writer.write_record_from_list. rewrite Hw.
  rewrite io_bind_emit, io_bind_run. unfold finally.
  destruct (write_loop_spec w labels out_path data [] 0%Z
              (tr ++ [RecordOpen out_path])) as [Htr Hres].
  destruct (Writer.write_loop w labels out_path data [] 0%Z
              (tr ++ [RecordOpen out_path])) as [r tr'].
  simpl in Htr, Hres. subst tr'.
  destruct (first_failure w labels data) as [e|].
  - subst r. simpl. by rewrite <- !(assoc_L (++)).
  - destruct Hres as [ec ->]. simpl. split.
    + by rewrite <- !(assoc_L (++)).
    + by exists ec.
Qed.

Lemma write_record_from_list_locked w id labels data out_path tr :
  can_write w out_path = false →
  Writer.write_record_from_list w id labels data out_path tr
  = (Raise OSError, tr).
Proof.
  intros Hw. unfold Writer.write_record_from_list. by rewrite Hw.
Qed.

(** C9. An annotation file without boxes is encoded with an empty class
    counter and the negative flag set, and the shard writer counts it as
    one negative example; a file with at least one box adds nothing to
    the negative count, and its class counter totals the number of its
    boxes.  The annotations are taken with their invariant: as many class
    names as boxes. *)
Theorem negative_accounting w id labels data out_path tr res tr' :
  Forall (well_formed w) data →
  Writer.write_record_from_list w id labels data out_path tr = (Ok res, tr') →
  (∀ p, p ∈ data →
     ∃ example count is_negative,
       Encoder.create_tf_example w labels p = Ok (example, count, is_negative) ∧
       (boxes w p = 0 → count = [] ∧ is_negative = true) ∧
       (0 < boxes w p →
        is_negative = false ∧ Counter.total count = Z.of_nat (boxes w p))) ∧
  negative_count res
  = Z.of_nat (length (filter (λ p, boxes w p = 0) data)).
Proof.
  intros Hwf Hrun.
  destruct (can_write w out_path) eqn:Hw;
    [|by rewrite write_record_from_list_locked in Hrun].
  destruct (write_record_from_list_spec w id labels data out_path tr Hw)
    as [_ Hres].
  rewrite Hrun in Hres. simpl in Hres.
  destruct (first_failure w labels data) eqn:Hff; [done|].
  destruct Hres as [ec [= ->]]. split; [|done].
  intros p Hp. apply first_failure_None in Hff.
  rewrite Forall_forall in Hff, Hwf.
  destruct (Hff p Hp) as [[[example count] is_negative] Henc].
  exists example, count, is_negative. split; [done|].
  apply create_tf_example_Ok in Henc
    as (rects & classes & Hread & _ & _ & _ & _ & _ & _ & -> & ->).
  specialize (Hwf p Hp). unfold well_formed in Hwf. unfold boxes.
  rewrite Hread in *. split.
  - intros Hz. rewrite bool_decide_eq_true_2 by done.
    rewrite Hz in Hwf. destruct classes; [done|discriminate].
  - intros Hpos. rewrite bool_decide_eq_false_2 by lia.
    by rewrite counter_total_of_list, Hwf.
Qed.

Lemma record_parallel_lists_witness :
  length (bbox_xmin Sample.example_b) = 2 ∧
  length (bbox_xmax Sample.example_b) = 2 ∧
  length (bbox_ymin Sample.example_b) = 2 ∧
  length (bbox_ymax Sample.example_b) = 2 ∧
  length (class_text Sample.example_b) = 2 ∧
  length (class_label Sample.example_b) = 2.
Proof.
  apply (record_parallel_lists Sample.the_world Sample.labels "data/b.txt"
           [Sample.box (-5) 0 700 500; Sample.box 1 2 3 4] ["cat"; "dog"] 2
           Sample.example_b (Counter.of_list ["cat"; "dog"]) false);
    reflexivity.
Defined.

Lemma negative_accounting_witness :
  (∀ p, p ∈ ["data/b.txt"; "data/c.txt"] →
     ∃ example count is_negative,
       Encoder.create_tf_example Sample.the_world Sample.labels p
       = Ok (example, count, is_negative) ∧
       (boxes Sample.the_world p = 0 → count = [] ∧ is_negative = true) ∧
       (0 < boxes Sample.the_world p →
        is_negative = false ∧
        Counter.total count = Z.of_nat (boxes Sample.the_world p))) ∧
  negative_count Sample.shard_result
  = Z.of_nat (length (filter (λ p, boxes Sample.the_world p = 0)
                        ["data/b.txt"; "data/c.txt"])).
Proof.
  apply (negative_accounting Sample.the_world "train-00" Sample.labels
           ["data/b.txt"; "data/c.txt"] "data/train-00.record" []
           Sample.shard_result (Sample.shard.2)).
  - repeat constructor.
  - reflexivity.
Defined.

(** ** Task builder *)

Lemma tasks_for_Ok w folder name number labels filenames tasks :
  Tasks.tasks_for w folder name number labels filenames = Ok tasks →
  ∀ t, t ∈ tasks →
    task_labels t = labels ∧ ∀ p, p ∈ task_data t → p ∈ filenames.
Proof.
  unfold Tasks.tasks_for.
  destruct (split_into_lists_round_robin number filenames)
    as (shards & -> & _ & _ & Hperm).
  simpl. intros [= <-] t Ht. split; [by eapply make_tasks_labels|].
  intros p Hp.
  rewrite <- Hperm, <- (make_tasks_data w folder name labels shards).
  apply list_elem_of_In, in_concat. exists (task_data t).
  split; apply list_elem_of_In; [by apply list_elem_of_fmap_2|done].
Qed.

Lemma gather_Ok_readable w acc filenames labels :
  Labels.gather w acc filenames = Ok labels → readable w filenames.
Proof.
  revert acc. induction filenames as [|f fs IH]; intros acc; simpl.
  - constructor.
  - intros ([rects classes] & Hf & Hrest)%bind_Ok. constructor.
    + by eexists.
    + by eapply IH.
Qed.

Lemma get_labels_Ok w filenames labels :
  Labels.get_labels_from_filenames w filenames = Ok labels →
  readable w filenames ∧ ∀ c, seen w filenames c → c ∈ labels.*1.
Proof.
  intros Hrun.
  assert (readable w filenames) as Hread.
  { unfold Labels.get_labels_from_filenames in Hrun.
    apply bind_Ok in Hrun as (s & Hs & _). by eapply gather_Ok_readable. }
  split; [done|].
  destruct (get_labels_spec w filenames Hread) as (names & Hrun' & _ & _ & Hmem).
  rewrite Hrun in Hrun'. injection Hrun' as ->.
  intros c Hc. rewrite fst_zip; [by apply Hmem|].
  by rewrite length_fmap, length_seq.
Qed.

Lemma get_record_writing_tasks_Ok w a g tasks labels :
  Tasks.get_record_writing_tasks w a g = Ok (tasks, labels) →
  ∃ train_filenames eval_filenames train_tasks eval_tasks,
    Tasks.get_filenames w a g = Ok (train_filenames, eval_filenames) ∧
    Labels.get_labels_from_filenames w (train_filenames ++ eval_filenames)
    = Ok labels ∧
    Tasks.tasks_for w (folder a) "train" (number a) labels train_filenames
    = Ok train_tasks ∧
    Tasks.tasks_for w (folder a) "eval" (number a) labels eval_filenames
    = Ok eval_tasks ∧
    tasks = train_tasks ++ eval_tasks.
Proof.
  unfold Tasks.get_record_writing_tasks.
  intros ([train_filenames eval_filenames] & Hfiles & H)%bind_Ok.
  apply bind_Ok in H as (labels' & Hlabels & H).
  apply bind_Ok in H as (train_tasks & Htrain & H).
  apply bind_Ok in H as (eval_tasks & Heval & H).
  simplify_eq/=. eauto 10.
Qed.

(** C6. Every class name read from a file of a shard task is a key of the
    vocabulary the task carries, so the encoder's lookup of the class ids
    succeeds.  Reading a file twice gives the same names: the reader is a
    function of the environment. *)
Theorem vocabulary_lookup_safe w a g tasks labels :
  Tasks.get_record_writing_tasks w a g = Ok (tasks, labels) →
  ∀ t p rects classes,
    t ∈ tasks → p ∈ task_data t → read_rects w p = Ok (rects, classes) →
    task_labels t = labels ∧
    (∀ c, c ∈ classes → ∃ i, Dict.getitem (task_labels t) c = Ok i) ∧
    is_Ok (mapM (Dict.getitem (task_labels t)) classes).
Proof.
  intros (train & evalf & tt & et & _ & Hlabels & Htt & Het & ->)
    %get_record_writing_tasks_Ok t p rects classes Ht Hp Hread.
  apply get_labels_Ok in Hlabels as [_ Hkeys].
  assert (task_labels t = labels ∧ p ∈ train ++ evalf) as [-> Hin].
  { rewrite elem_of_app in Ht. rewrite elem_of_app.
    destruct Ht as [Ht|Ht];
      [destruct (tasks_for_Ok _ _ _ _ _ _ _ Htt t Ht)
      |destruct (tasks_for_Ok _ _ _ _ _ _ _ Het t Ht)]; auto. }
  assert (∀ c, c ∈ classes → ∃ i, Dict.getitem labels c = Ok i) as Hget.
  { intros c Hc. unfold Dict.getitem.
    destruct (proj2 (dict_get_is_Some labels c)) as [i ->]; [|by exists i].
    apply Hkeys. by exists p, rects, classes. }
  split_and!; [done..|].
  apply mapM_is_Ok, Forall_forall. intros c Hc.
  destruct (Hget c Hc) as [i Hi]. by exists i.
Qed.

Lemma vocabulary_lookup_safe_witness :
  task_labels Sample.task_0 = Sample.labels ∧
  (∀ c, c ∈ ["cat"; "dog"] →
        ∃ i, Dict.getitem (task_labels Sample.task_0) c = Ok i) ∧
  is_Ok (mapM (Dict.getitem (task_labels Sample.task_0)) ["cat"; "dog"]).
Proof.
  apply (vocabulary_lookup_safe Sample.the_world Sample.the_args 42%Z
           Sample.the_tasks Sample.labels eq_refl Sample.task_0 "data/b.txt"
           [Sample.box (-5) 0 700 500; Sample.box 1 2 3 4] ["cat"; "dog"]).
  - vm_compute. constructor.
  - vm_compute. constructor.
  - reflexivity.
Defined.

(** ** The pool and the main program *)

Lemma run_task_spec w t tr :
  ∃ evs, (Pool.run_task w t tr).2 = tr ++ evs ∧
         Forall is_record_event evs ∧
         if task_ok w t then ∃ res, (Pool.run_task w t tr).1 = Ok res
         else ∃ e, (Pool.run_task w t tr).1 = Raise e.
Proof.
  unfold Pool.run_task, task_ok.
  destruct (can_write w (task_out_path t)) eqn:Hw.
  - destruct (write_record_from_list_spec w (task_id t) (task_labels t)
                (task_data t) (task_out_path t) tr Hw) as [Htr Hres].
    eexists. split; [exact Htr|]. split.
    + rewrite !Forall_app, Forall_fmap. split_and!.
      * by repeat constructor.
      * by apply Forall_forall.
      * by repeat constructor.
    + simpl. destruct (first_failure w (task_labels t) (task_data t));
        [by eexists|]. destruct Hres as [ec ->]. by eexists.
  - rewrite write_record_from_list_locked by done. exists []. simpl.
    rewrite (right_id_L [] (++)). split_and!; [done|constructor|by eexists].
Qed.

Lemma run_batch_spec w batch tr :
  ∃ evs, (Pool.run_batch w batch tr).2 = tr ++ evs ∧
         Forall is_record_event evs ∧
         if forallb (task_ok w) batch
         then ∃ rs, (Pool.run_batch w batch tr).1 = Ok rs
         else ∃ e, (Pool.run_batch w batch tr).1 = Raise e.
Proof.
  unfold Pool.run_batch. revert tr.
  induction batch as [|t batch IH]; intros tr.
  - exists []. simpl. rewrite (right_id_L [] (++)).
    split_and!; [done|constructor|by eexists].
  - cbn [mapM forallb]. rewrite io_bind_run.
    destruct (run_task_spec w t tr) as (evs1 & Htr1 & Hev1 & Hres1).
    destruct (Pool.run_task w t tr) as [r1 tr1]. simpl in Htr1, Hres1. subst.
    destruct (task_ok w t).
    + destruct Hres1 as [res ->]. rewrite io_bind_run.
      destruct (IH (tr ++ evs1)) as (evs2 & Htr2 & Hev2 & Hres2).
      destruct (mapM (Pool.run_task w) batch (tr ++ evs1)) as [r2 tr2].
      simpl in Htr2, Hres2. subst. exists (evs1 ++ evs2).
      rewrite Forall_app, (assoc_L (++)). simpl.
      destruct (forallb (task_ok w) batch).
      * destruct Hres2 as [rs ->]. simpl. split_and!; [done..|by eexists].
      * destruct Hres2 as [e ->]. simpl. split_and!; [done..|by eexists].
    + destruct Hres1 as [e ->]. exists evs1. simpl.
      split_and!; [done..|by eexists].
Qed.

Lemma run_batches_spec w batches tr :
  ∃ evs, (Pool.run_batches w batches tr).2 = tr ++ evs ∧
         Forall is_record_event evs ∧
         if forallb (task_ok w) (concat batches)
         then ∃ rs, Pool.gather (Pool.run_batches w batches tr).1 = Ok rs
         else ∃ e, Pool.gather (Pool.run_batches w batches tr).1 = Raise e.
Proof.
  revert tr. induction batches as [|b bs IH]; intros tr.
  - exists []. simpl. rewrite (right_id_L [] (++)).
    split_and!; [done|constructor|by eexists].
  - cbn [Pool.run_batches concat].
    destruct (run_batch_spec w b tr) as (evs1 & Htr1 & Hev1 & Hres1).
    destruct (Pool.run_batch w b tr) as [r1 tr1]. simpl in Htr1, Hres1. subst.
    destruct (IH (tr ++ evs1)) as (evs2 & Htr2 & Hev2 & Hres2).
    destruct (Pool.run_batches w bs (tr ++ evs1)) as [rs2 tr2].
    simpl in Htr2, Hres2. subst. exists (evs1 ++ evs2).
    rewrite Forall_app, (assoc_L (++)), forallb_app. simpl.
    split_and!; [done..|].
    destruct (forallb (task_ok w) b).
    + destruct Hres1 as [rs1 ->]. simpl.
      destruct (forallb (task_ok w) (concat bs)).
      * destruct Hres2 as [rs ->]. by eexists.
      * destruct Hres2 as [e ->]. by eexists.
    + destruct Hres1 as [e ->]. by eexists.
Qed.

(** The batches cover the task list: the fuel of [get_tasks] is enough. *)
Lemma get_tasks_fuel_concat {A} fuel size (it : list A) :
  0 < size → length it < fuel →
  concat (Pool.get_tasks_fuel fuel size it) = it.
Proof.
  intros Hsize. revert it.
  induction fuel as [|fuel IH]; intros it Hfuel; [lia|].
  simpl. destruct (take size it) as [|x xs] eqn:Htake.
  - destruct it as [|y it]; [done|]. destruct size; [lia|done].
  - simpl. rewrite IH.
    + change (x :: xs ++ drop size it) with ((x :: xs) ++ drop size it).
      rewrite <- Htake. apply take_drop.
    + rewrite length_drop. destruct it; [by destruct size|]. simpl in *. lia.
Qed.

Lemma get_tasks_concat w (tasks : list task) :
  concat (Pool.get_tasks (Pool.chunksize w (length tasks)) tasks) = tasks.
Proof.
  destruct tasks as [|t tasks].
  { unfold Pool.get_tasks. simpl. by rewrite take_nil. }
  apply get_tasks_fuel_concat; [|lia].
  unfold Pool.chunksize. case_decide as Hmod; [|lia].
  assert (Pool.processes w * 4 ≠ 0)
    by (unfold Pool.processes; case_decide; lia).
  pose proof (Nat.div_mod_eq (length (t :: tasks)) (Pool.processes w * 4)).
  simpl in *. nia.
Qed.

Lemma starmap_spec w tasks tr :
  ∃ evs, (Pool.starmap w tasks tr).2 = tr ++ evs ∧
         Forall is_record_event evs ∧
         if forallb (task_ok w) tasks
         then ∃ rs, (Pool.starmap w tasks tr).1 = Ok rs
         else ∃ e, (Pool.starmap w tasks tr).1 = Raise e.
Proof.
  unfold Pool.starmap.
  destruct (run_batches_spec w
              (Pool.get_tasks (Pool.chunksize w (length tasks)) tasks) tr)
    as (evs & Htr & Hev & Hres).
  rewrite get_tasks_concat in Hres.
  destruct (Pool.run_batches w _ tr) as [outs tr']. simpl in *.
  by exists evs.
Qed.

Lemma encoded_prefix_failure w labels pre p post e :
  Forall (λ q, is_Ok (Encoder.create_tf_example w labels q)) pre →
  Encoder.create_tf_example w labels p = Raise e →
  encoded_prefix w labels (pre ++ p :: post) = encoded_prefix w labels pre ∧
  length (encoded_prefix w labels pre) = length pre.
Proof.
  intros Hpre Hp. induction Hpre as [|q pre [[[ex c] neg] Hq] _ [IH1 IH2]]; simpl.
  - by rewrite Hp.
  - rewrite Hq. simpl. by rewrite IH1, IH2.
Qed.

Lemma main_spec w a tr tasks labels :
  Tasks.get_record_writing_tasks w a (seed w 42) = Ok (tasks, labels) →
  ∃ r recs m,
    Main.main w a tr = (r, tr ++ recs ++ m) ∧
    Forall is_record_event recs ∧
    (forallb (task_ok w) tasks = false → m = [] ∧ ∃ e, r = Raise e) ∧
    (forallb (task_ok w) tasks = true →
     if can_write w (path_join w (folder a) "label.pbtxt")
     then m = [ManifestWrite (path_join w (folder a) "label.pbtxt")
                 (Main.label_txt labels)] ∧ ∃ s, r = Ok s
     else m = [] ∧ r = Raise OSError).
Proof.
  intros Htasks. unfold Main.main. rewrite Htasks, io_bind_lift_Ok.
  cbv beta iota. rewrite io_bind_run.
  destruct (starmap_spec w tasks tr) as (recs & Htr & Hrecs & Hres).
  destruct (Pool.starmap w tasks tr) as [r1 tr1]. simpl in Htr, Hres. subst.
  destruct (forallb (task_ok w) tasks).
  - destruct Hres as [rs ->]. rewrite io_bind_run. unfold Main.write_labels.
    destruct (can_write w (path_join w (folder a) "label.pbtxt")).
    + eexists _, recs, [_]. unfold emit at 1. cbv beta iota.
      split_and!; [by rewrite <- (assoc_L (++))|done|done|].
      intros _. split; [done|by eexists].
    + exists (Raise OSError), recs, []. unfold lift at 1.
      rewrite (right_id_L [] (++)). by split_and!.
  - destruct Hres as [e ->]. exists (Raise e), recs, [].
    rewrite (right_id_L [] (++)). split_and!; [done..| |done].
    intros _. split; [done|by eexists].
Qed.

(** C7. When the encoder fails on a file of a shard, the shard writer
    stops there: it raises that exception after the records of the files
    before it, and writes nothing for the files after it; the run then
    ends with an exception and no manifest.  A manifest is written only
    as the last output of a run in which every shard task has succeeded. *)
Theorem fail_fast_manifest w a tr tasks labels :
  Tasks.get_record_writing_tasks w a (seed w 42) = Ok (tasks, labels) →
  ∃ r recs m,
    Main.main w a tr = (r, tr ++ recs ++ m) ∧
    Forall is_record_event recs ∧
    (∀ t pre p post e,
       t ∈ tasks → task_data t = pre ++ p :: post →
       Forall (λ q, is_Ok (Encoder.create_tf_example w (task_labels t) q)) pre →
       Encoder.create_tf_example w (task_labels t) p = Raise e →
       (∀ tr0, can_write w (task_out_path t) = true →
          Pool.run_task w t tr0
          = (Raise e,
             tr0 ++ [RecordOpen (task_out_path t)]
                 ++ (RecordWrite (task_out_path t)
                       <$> encoded_prefix w (task_labels t) pre)
                 ++ [RecordClose (task_out_path t)])) ∧
       length (encoded_prefix w (task_labels t) pre) = length pre ∧
       (∃ e', r = Raise e') ∧ m = []) ∧
    (m ≠ [] →
     m = [ManifestWrite (path_join w (folder a) "label.pbtxt")
            (Main.label_txt labels)] ∧
     (∃ s, r = Ok s) ∧
     ∀ t, t ∈ tasks → task_ok w t = true).
Proof.
  intros Htasks.
  destruct (main_spec w a tr tasks labels Htasks)
    as (r & recs & m & Hmain & Hrecs & Hfail & Hok).
  exists r, recs, m. split_and!; [done..| |].
  - intros t pre p post e Ht Hdata Hpre Hp.
    assert (first_failure w (task_labels t) (task_data t) = Some e) as Hff
      by (apply first_failure_Some; eauto 10).
    destruct (encoded_prefix_failure w (task_labels t) pre p post e Hpre Hp)
      as [Henc Hlen].
    split_and!.
    + intros tr0 Hw. unfold Pool.run_task.
      destruct (write_record_from_list_spec w (task_id t) (task_labels t)
                  (task_data t) (task_out_path t) tr0 Hw) as [Htr Hres].
      rewrite Hff in Hres. rewrite <- Hdata in Henc. rewrite Henc in Htr.
      destruct (Writer.write_record_from_list w _ _ _ _ tr0) as [r0 tr0'].
      simpl in *. by subst.
    + done.
    + apply Hfail. destruct (forallb (task_ok w) tasks) eqn:Hall; [|done].
      rewrite forallb_forall in Hall.
      specialize (Hall t (proj1 (list_elem_of_In _ _) Ht)).
      unfold task_ok in Hall. rewrite Hff in Hall.
      by destruct (can_write w (task_out_path t)).
    + apply Hfail. destruct (forallb (task_ok w) tasks) eqn:Hall; [|done].
      rewrite forallb_forall in Hall.
      specialize (Hall t (proj1 (list_elem_of_In _ _) Ht)).
      unfold task_ok in Hall. rewrite Hff in Hall.
      by destruct (can_write w (task_out_path t)).
  - intros Hm. destruct (forallb (task_ok w) tasks) eqn:Hall.
    + specialize (Hok eq_refl).
      destruct (can_write w (path_join w (folder a) "label.pbtxt"));
        [|by destruct Hok]. destruct Hok as [-> Hr]. split_and!; [done..|].
      intros t Ht. rewrite forallb_forall in Hall.
      apply Hall. by apply list_elem_of_In.
    + by destruct (Hfail eq_refl).
Qed.

Lemma fail_fast_manifest_witness :
  ∃ r recs m,
    Main.main Sample.the_world Sample.the_args [] = (r, [] ++ recs ++ m) ∧
    Forall is_record_event recs ∧
    (∀ t pre p post e,
       t ∈ Sample.the_tasks → task_data t = pre ++ p :: post →
       Forall (λ q, is_Ok (Encoder.create_tf_example Sample.the_world
                             (task_labels t) q)) pre →
       Encoder.create_tf_example Sample.the_world (task_labels t) p = Raise e →
       (∀ tr0, can_write Sample.the_world (task_out_path t) = true →
          Pool.run_task Sample.the_world t tr0
          = (Raise e,
             tr0 ++ [RecordOpen (task_out_path t)]
                 ++ (RecordWrite (task_out_path t)
                       <$> encoded_prefix Sample.the_world (task_labels t) pre)
                 ++ [RecordClose (task_out_path t)])) ∧
       length (encoded_prefix Sample.the_world (task_labels t) pre)
       = length pre ∧
       (∃ e', r = Raise e') ∧ m = []) ∧
    (m ≠ [] →
     m = [ManifestWrite
            (path_join Sample.the_world (folder Sample.the_args) "label.pbtxt")
            (Main.label_txt Sample.labels)] ∧
     (∃ s, r = Ok s) ∧
     ∀ t, t ∈ Sample.the_tasks → task_ok Sample.the_world t = true).
Proof.
  apply (fail_fast_manifest Sample.the_world Sample.the_args []
           Sample.the_tasks Sample.labels).
  reflexivity.
Defined.

(** ** Annotation discovery *)

Lemma collect_unreadable w folder :
  unreadable w folder → Discovery.collect w folder = [].
Proof.
  unfold unreadable, can_list, Discovery.collect, Discovery.os_walk.
  destruct (fs_lookup w folder) as [[|[] entries]|]; done.
Qed.

(** The claim of a fatal error, at the sample folder [locked]: the folder
    is unreadable, and the run raises nothing; it goes on with no
    annotation file and writes an empty manifest. *)
Lemma unreadable_root_not_fatal :
  unreadable Sample.the_world (folder Sample.locked_args) ∧
  (¬ ∃ e, (Main.main Sample.the_world Sample.locked_args []).1 = Raise e) ∧
  Main.main Sample.the_world Sample.locked_args []
  = (Ok {| overall_records := 0; overall_examples := [];
           overall_negatives := 0 |},
     [ManifestWrite "locked/label.pbtxt" ""]).
Proof.
  split_and!; [reflexivity| |reflexivity].
  intros [e He]. vm_compute in He. discriminate.
Qed.

(** C5, as the code has it. When the root folder cannot be listed,
    discovery raises nothing and returns the empty list; a run without an
    eval source then has no shard task, writes no record, and ends by
    writing an empty manifest (or by the error of that write). *)
Theorem unreadable_root_is_empty w a tr :
  unreadable w (folder a) →
  (∀ g, (Discovery.get_shuffled_filenames w (folder a) g).1 = []) ∧
  (eval_folder a = None → eval a = false →
   Tasks.get_record_writing_tasks w a (seed w 42) = Ok ([], []) ∧
   Main.main w a tr
   = if can_write w (path_join w (folder a) "label.pbtxt")
     then (Ok {| overall_records := 0; overall_examples := [];
                 overall_negatives := 0 |},
           tr ++ [ManifestWrite (path_join w (folder a) "label.pbtxt") ""])
     else (Raise OSError, tr)).
Proof.
  intros Hroot.
  assert (∀ g, Discovery.get_shuffled_filenames w (folder a) g = ([], g))
    as Hfiles.
  { intros g. unfold Discovery.get_shuffled_filenames.
    by rewrite collect_unreadable. }
  split; [intros g; by rewrite Hfiles|].
  intros Hfolder Heval.
  assert (Tasks.get_record_writing_tasks w a (seed w 42) = Ok ([], []))
    as Htasks.
  { unfold Tasks.get_record_writing_tasks, Tasks.get_filenames.
    rewrite Hfiles, Hfolder, Heval. simpl.
    unfold Tasks.tasks_for, Partition.split_into_lists.
    assert (Partition.record_number (number a) [] = 0%Z) as ->
      by (unfold Partition.record_number; simpl; lia).
    done. }
  split; [done|].
  unfold Main.main. rewrite Htasks, io_bind_lift_Ok. cbv beta iota.
  unfold Main.write_labels.
  destruct (can_write w (path_join w (folder a) "label.pbtxt")) eqn:Hw.
  - unfold Pool.starmap, Pool.get_tasks. simpl. rewrite take_nil.
    by rewrite io_bind_run.
  - unfold Pool.starmap, Pool.get_tasks. simpl. rewrite take_nil.
    by rewrite io_bind_run.
Qed.

Lemma unreadable_root_is_empty_witness :
  (∀ g, (Discovery.get_shuffled_filenames Sample.the_world
           (folder Sample.locked_args) g).1 = []) ∧
  (eval_folder Sample.locked_args = None → eval Sample.locked_args = false →
   Tasks.get_record_writing_tasks Sample.the_world Sample.locked_args
     (seed Sample.the_world 42) = Ok ([], []) ∧
   Main.main Sample.the_world Sample.locked_args []
   = if can_write Sample.the_world
          (path_join Sample.the_world (folder Sample.locked_args) "label.pbtxt")
     then (Ok {| overall_records := 0; overall_examples := [];
                 overall_negatives := 0 |},
           [] ++ [ManifestWrite
                    (path_join Sample.the_world (folder Sample.locked_args)
                       "label.pbtxt") ""])
     else (Raise OSError, [])).
Proof.
  apply (unreadable_root_is_empty Sample.the_world Sample.locked_args []).
  reflexivity.
Defined.

(** ** Binary64 arithmetic: digits, shifts and rounding *)

Section float_facts.
Import Num.
Local Open Scope Z_scope.

Lemma fexp_eq t : fexp prec emax t = Z.max (t - 53) (-1074).
Proof. reflexivity. Qed.

Lemma digits2_pos_size p : digits2_pos p = Pos.size p.
Proof. induction p; simpl; congruence. Qed.

Lemma Zdigits2_pos m : 0 < m → Zdigits2 m = Z.log2 m + 1.
Proof.
  destruct m as [|p|p]; try lia. intros _. simpl.
  rewrite digits2_pos_size. destruct p; simpl; lia.
Qed.

Lemma Zdigits2_nonneg m : 0 ≤ Zdigits2 m.
Proof. destruct m; simpl; lia. Qed.

Lemma Zdigits2_mono x y : 0 ≤ x ≤ y → Zdigits2 x ≤ Zdigits2 y.
Proof.
  intros Hxy. destruct (Z.eq_dec x 0) as [->|Hx].
  - apply Zdigits2_nonneg.
  - rewrite !Zdigits2_pos by lia.
    pose proof (Z.log2_le_mono x y). lia.
Qed.

Lemma Zdigits2_succ x : 0 ≤ x → Zdigits2 (x + 1) ≤ Zdigits2 x + 1.
Proof.
  intros Hx. destruct (Z.eq_dec x 0) as [->|Hx0]; [simpl; lia|].
  rewrite !Zdigits2_pos by lia.
  pose proof (Z.log2_succ_le x). unfold Z.succ in *. lia.
Qed.

Lemma Zdigits2_bound x k : 0 ≤ k → 0 ≤ x < 2 ^ k → Zdigits2 x ≤ k.
Proof.
  intros Hk Hx. destruct (Z.eq_dec x 0) as [->|Hx0]; [simpl; lia|].
  rewrite Zdigits2_pos by lia.
  pose proof (proj1 (Z.log2_lt_pow2 x k ltac:(lia)) ltac:(lia)). lia.
Qed.

Lemma Zdigits2_spec x : 0 < x → 2 ^ (Zdigits2 x - 1) ≤ x < 2 ^ Zdigits2 x.
Proof.
  intros Hx. rewrite Zdigits2_pos by done.
  replace (Z.log2 x + 1 - 1) with (Z.log2 x) by lia.
  pose proof (Z.log2_spec x Hx). unfold Z.succ in *. lia.
Qed.

Lemma Zdigits2_div x k :
  0 ≤ x → 0 ≤ k → Zdigits2 (x / 2 ^ k) ≤ Z.max 0 (Zdigits2 x - k).
Proof.
  intros Hx Hk. pose proof (Z.pow_pos_nonneg 2 k ltac:(lia) Hk) as Hpow.
  destruct (Z.eq_dec x 0) as [->|Hx0].
  { rewrite Z.div_0_l by lia. simpl. lia. }
  destruct (Z.eq_dec (x / 2 ^ k) 0) as [->|Hq]; [simpl; lia|].
  assert (0 < x / 2 ^ k).
  { apply Z.le_neq. split; [by apply Z.div_pos|congruence]. }
  assert (k ≤ Z.log2 x).
  { apply Z.log2_le_pow2; [lia|].
    destruct (Z.lt_ge_cases x (2 ^ k)); [|done].
    rewrite Z.div_small in Hq by lia. done. }
  rewrite !Zdigits2_pos by lia.
  rewrite <- Z.shiftr_div_pow2 by done.
  rewrite Z.log2_shiftr by lia. lia.
Qed.

Lemma Zdigits2_mul_pow2 x k :
  0 < x → 0 ≤ k → Zdigits2 (x * 2 ^ k) = Zdigits2 x + k.
Proof.
  intros Hx Hk. pose proof (Z.pow_pos_nonneg 2 k ltac:(lia) Hk) as Hpow.
  rewrite !Zdigits2_pos by nia.
  rewrite Z.log2_mul_pow2 by lia. lia.
Qed.

End float_facts.

Section float_rounding.
Import Num.
Local Open Scope Z_scope.

Lemma shr_1_m mrs : 0 ≤ shr_m mrs → shr_m (shr_1 mrs) = shr_m mrs / 2.
Proof.
  destruct mrs as [m r s]. simpl. intros Hm.
  destruct m as [|[p|p|]|p]; simpl; try lia; try done.
  - rewrite Pos2Z.inj_xI. apply (Z.div_unique _ _ _ 1); lia.
  - rewrite Pos2Z.inj_xO. apply (Z.div_unique _ _ _ 0); lia.
Qed.

Lemma shr_1_exact mrs :
  0 ≤ shr_m mrs → shr_r mrs = false → shr_s mrs = false →
  shr_m mrs mod 2 = 0 →
  shr_r (shr_1 mrs) = false ∧ shr_s (shr_1 mrs) = false.
Proof.
  destruct mrs as [m r s]. simpl. intros Hm -> -> Hmod.
  destruct m as [|[p|p|]|p]; simpl; try done; exfalso;
    rewrite ?Pos2Z.inj_xI in Hmod; change (Z.pos 1) with 1 in *;
    pose proof (Z.mod_pos_bound (2 * Z.pos p + 1) 2);
    pose proof (Z.div_mod (2 * Z.pos p + 1) 2); try lia; done.
Qed.

Lemma iter_pos_shr_m p mrs :
  0 ≤ shr_m mrs →
  shr_m (SpecFloat.iter_pos shr_1 p mrs) = shr_m mrs / 2 ^ Z.pos p.
Proof.
  revert mrs. induction p as [p IH|p IH|]; intros mrs Hm; simpl SpecFloat.iter_pos.
  - assert (0 ≤ shr_m (shr_1 mrs))
      by (rewrite shr_1_m by done; by apply Z.div_pos).
    assert (0 ≤ shr_m (SpecFloat.iter_pos shr_1 p (shr_1 mrs)))
      by (rewrite IH by done; apply Z.div_pos; lia).
    rewrite !IH, shr_1_m by done.
    rewrite !Z.div_div by lia. f_equal.
    replace (Z.pos p~1) with (1 + (Z.pos p + Z.pos p)) by lia.
    rewrite !Z.pow_add_r, Z.pow_1_r by lia. lia.
  - assert (0 ≤ shr_m (SpecFloat.iter_pos shr_1 p mrs))
      by (rewrite IH by done; apply Z.div_pos; lia).
    rewrite !IH by done. rewrite Z.div_div by lia. f_equal.
    replace (Z.pos p~0) with (Z.pos p + Z.pos p) by lia.
    rewrite Z.pow_add_r by lia. lia.
  - rewrite shr_1_m by done. by rewrite Z.pow_1_r.
Qed.

Lemma iter_pos_shr_exact p mrs :
  0 ≤ shr_m mrs → shr_r mrs = false → shr_s mrs = false →
  shr_m mrs mod 2 ^ Z.pos p = 0 →
  shr_r (SpecFloat.iter_pos shr_1 p mrs) = false ∧
  shr_s (SpecFloat.iter_pos shr_1 p mrs) = false.
Proof.
  revert mrs.
  assert (∀ q x, 0 ≤ x → x mod 2 ^ (Z.pos q + Z.pos q) = 0 →
            x mod 2 ^ Z.pos q = 0 ∧ (x / 2 ^ Z.pos q) mod 2 ^ Z.pos q = 0)
    as Hsplit.
  { intros q x Hx Hmod. rewrite Z.pow_add_r in Hmod by lia.
    apply Z.mod_divide in Hmod as [c Hc]; [|lia].
    assert (x = (c * 2 ^ Z.pos q) * 2 ^ Z.pos q) as -> by lia.
    rewrite Z.mod_mul, Z.div_mul, Z.mod_mul by lia. done. }
  induction p as [p IH|p IH|]; intros mrs Hm Hr Hs Hmod; simpl SpecFloat.iter_pos.
  - rewrite Pos2Z.inj_xI in Hmod.
    replace (2 * Z.pos p + 1) with (1 + (Z.pos p + Z.pos p)) in Hmod by lia.
    rewrite Z.pow_add_r, Z.pow_1_r in Hmod by lia.
    apply Z.mod_divide in Hmod as [c Hc]; [|lia].
    assert (shr_m mrs mod 2 = 0) as Hm2.
    { rewrite Hc.
      replace (c * (2 * 2 ^ (Z.pos p + Z.pos p)))
        with (c * 2 ^ (Z.pos p + Z.pos p) * 2) by lia.
      apply Z.mod_mul. lia. }
    destruct (shr_1_exact mrs Hm Hr Hs Hm2) as [Hr1 Hs1].
    assert (0 ≤ shr_m (shr_1 mrs))
      by (rewrite shr_1_m by done; by apply Z.div_pos).
    assert (shr_m (shr_1 mrs) mod 2 ^ (Z.pos p + Z.pos p) = 0) as Hmod1.
    { rewrite shr_1_m, Hc by done.
      replace (c * (2 * 2 ^ (Z.pos p + Z.pos p)))
        with (c * 2 ^ (Z.pos p + Z.pos p) * 2) by lia.
      rewrite Z.div_mul by lia. apply Z.mod_mul. lia. }
    destruct (Hsplit p _ ltac:(done) Hmod1) as [Ha Hb].
    destruct (IH (shr_1 mrs)) as [Hr2 Hs2]; [done..|].
    apply IH; [|done..|].
    + rewrite iter_pos_shr_m by done. apply Z.div_pos; lia.
    + by rewrite iter_pos_shr_m.
  - replace (Z.pos p~0) with (Z.pos p + Z.pos p) in Hmod by lia.
    destruct (Hsplit p _ Hm Hmod) as [Ha Hb].
    destruct (IH mrs) as [Hr2 Hs2]; [done..|].
    apply IH; [|done..|].
    + rewrite iter_pos_shr_m by done. apply Z.div_pos; lia.
    + by rewrite iter_pos_shr_m.
  - apply shr_1_exact; [done..|]. by rewrite Z.pow_1_r in Hmod.
Qed.

End float_rounding.

Section float_round_aux.
Import Num.
Local Open Scope Z_scope.

Lemma round_exp_ge m e : e ≤ round_exp m e.
Proof. unfold round_exp. lia. Qed.

Lemma shr_record_of_loc_m m l : shr_m (shr_record_of_loc m l) = m.
Proof. by destruct l as [|[]]. Qed.

Lemma shr_fexp_spec m e l :
  0 ≤ m →
  ∃ mrs,
    shr_fexp prec emax m e l = (mrs, round_exp m e) ∧
    shr_m mrs = m / 2 ^ (round_exp m e - e) ∧
    (l = loc_Exact → m mod 2 ^ (round_exp m e - e) = 0 →
     shr_r mrs = false ∧ shr_s mrs = false).
Proof.
  intros Hm. unfold shr_fexp, shr, round_exp.
  destruct (fexp prec emax (Zdigits2 m + e) - e) as [|p|p] eqn:Hn.
  - exists (shr_record_of_loc m l).
    replace (Z.max e (fexp prec emax (Zdigits2 m + e))) with e by lia.
    rewrite Z.sub_diag, Z.pow_0_r, Z.div_1_r, shr_record_of_loc_m.
    split_and!; [done..|]. by intros -> _.
  - exists (SpecFloat.iter_pos shr_1 p (shr_record_of_loc m l)).
    replace (Z.max e (fexp prec emax (Zdigits2 m + e)))
      with (e + Z.pos p) by lia.
    replace (e + Z.pos p - e) with (Z.pos p) by lia.
    split_and!; [done| |].
    + rewrite iter_pos_shr_m by (by rewrite shr_record_of_loc_m).
      by rewrite shr_record_of_loc_m.
    + intros -> Hmod. by apply iter_pos_shr_exact.
  - exists (shr_record_of_loc m l).
    replace (Z.max e (fexp prec emax (Zdigits2 m + e))) with e by lia.
    rewrite Z.sub_diag, Z.pow_0_r, Z.div_1_r, shr_record_of_loc_m.
    split_and!; [done..|]. by intros -> _.
Qed.

Lemma round_nearest_even_cases mrs :
  (round_nearest_even (shr_m mrs) (loc_of_shr_record mrs) = shr_m mrs ∨
   round_nearest_even (shr_m mrs) (loc_of_shr_record mrs) = shr_m mrs + 1) ∧
  (shr_r mrs = false → shr_s mrs = false →
   round_nearest_even (shr_m mrs) (loc_of_shr_record mrs) = shr_m mrs).
Proof.
  destruct mrs as [m [] []]; simpl; split; try done; auto.
  destruct (Z.even m); auto.
Qed.

(** [binary_round_aux] in closed form: the mantissa is cut at the
    rounding exponent, rounded up or not, and cut once more. *)
Lemma binary_round_aux_spec s m e l :
  0 ≤ m →
  ∃ m2,
    (m2 = m / 2 ^ (round_exp m e - e) ∨
     m2 = m / 2 ^ (round_exp m e - e) + 1) ∧
    (l = loc_Exact → m mod 2 ^ (round_exp m e - e) = 0 →
     m2 = m / 2 ^ (round_exp m e - e)) ∧
    binary_round_aux prec emax s m e l =
    match m2 / 2 ^ (round_exp m2 (round_exp m e) - round_exp m e) with
    | Z0 => S754_zero s
    | Zpos p =>
        if round_exp m2 (round_exp m e) <=? emax - prec
        then S754_finite s p (round_exp m2 (round_exp m e))
        else S754_infinity s
    | Zneg _ => S754_nan
    end.
Proof.
  intros Hm. unfold binary_round_aux.
  destruct (shr_fexp_spec m e l Hm) as (mrs1 & -> & Hm1 & Hex1).
  destruct (round_nearest_even_cases mrs1) as [Hcases Hexact].
  set (m2 := round_nearest_even (shr_m mrs1) (loc_of_shr_record mrs1)) in *.
  assert (0 ≤ shr_m mrs1) as Hm1pos.
  { rewrite Hm1. apply Z.div_pos; [done|].
    apply Z.pow_pos_nonneg; [lia|]. pose proof (round_exp_ge m e). lia. }
  assert (0 ≤ m2) as Hm2 by lia.
  destruct (shr_fexp_spec m2 (round_exp m e) loc_Exact Hm2)
    as (mrs2 & -> & Hm3 & _).
  exists m2. rewrite <- Hm1, <- Hm3. split_and!; [done| |done].
  intros Hl Hmod. destruct (Hex1 Hl Hmod). by apply Hexact.
Qed.

End float_round_aux.

Section float_results.
Import Num.
Local Open Scope Z_scope.

Lemma round_exp_eq m e :
  round_exp m e = Z.max e (Z.max (Zdigits2 m + e - 53) (-1074)).
Proof. unfold round_exp. by rewrite fexp_eq. Qed.

Lemma binary_round_aux_not_nan s m e l :
  0 ≤ m → binary_round_aux prec emax s m e l ≠ S754_nan.
Proof.
  intros Hm.
  destruct (binary_round_aux_spec s m e l Hm) as (m2 & Hcases & _ & ->).
  pose proof (round_exp_ge m e).
  assert (0 ≤ m / 2 ^ (round_exp m e - e))
    by (apply Z.div_pos; [done|apply Z.pow_pos_nonneg; lia]).
  assert (0 ≤ m2 / 2 ^ (round_exp m2 (round_exp m e) - round_exp m e)).
  { pose proof (round_exp_ge m2 (round_exp m e)).
    apply Z.div_pos; [lia|apply Z.pow_pos_nonneg; lia]. }
  destruct (m2 / 2 ^ (round_exp m2 (round_exp m e) - round_exp m e));
    [done| |lia].
  by destruct (_ <=? _).
Qed.

(** No overflow: a value below [2 ^ 1023] rounds to a finite number. *)
Lemma binary_round_aux_finite s m e l :
  0 ≤ m → Zdigits2 m + e ≤ 1023 → e ≤ 970 →
  finite_with_sign s (binary_round_aux prec emax s m e l).
Proof.
  intros Hm Hd He.
  destruct (binary_round_aux_spec s m e l Hm) as (m2 & Hcases & _ & ->).
  pose proof (round_exp_ge m e) as Hge.
  pose proof (round_exp_eq m e) as He1.
  set (e1 := round_exp m e) in *.
  assert (0 < 2 ^ (e1 - e)) by (apply Z.pow_pos_nonneg; lia).
  pose proof (Z.div_pos m (2 ^ (e1 - e)) Hm ltac:(done)) as Hm1.
  pose proof (Zdigits2_div m (e1 - e) Hm ltac:(lia)) as Hd1.
  assert (Zdigits2 m2 ≤ Zdigits2 (m / 2 ^ (e1 - e)) + 1) as Hd2.
  { destruct Hcases as [->| ->]; [lia|by apply Zdigits2_succ]. }
  pose proof (round_exp_ge m2 e1) as Hge2.
  pose proof (round_exp_eq m2 e1) as He2.
  set (e2 := round_exp m2 e1) in *.
  assert (0 ≤ m2 / 2 ^ (e2 - e1)).
  { apply Z.div_pos; [lia|apply Z.pow_pos_nonneg; lia]. }
  destruct (m2 / 2 ^ (e2 - e1)) as [|q|q]; [done| |lia].
  destruct (Z.leb_spec e2 (emax - prec)) as [|Hgt]; [done|].
  unfold emax, prec in Hgt. lia.
Qed.

(** A mantissa that already fits is left as it is. *)
Lemma binary_round_aux_canonical s m e :
  0 < m → Zdigits2 m + e - 53 ≤ e → -1074 ≤ e → e ≤ 971 →
  binary_round_aux prec emax s m e loc_Exact
  = S754_finite s (Z.to_pos m) e.
Proof.
  intros Hm Hd Hlo Hhi.
  destruct (binary_round_aux_spec s m e loc_Exact ltac:(lia))
    as (m2 & _ & Hexact & ->).
  assert (round_exp m e = e) as He1 by (rewrite round_exp_eq; lia).
  rewrite He1 in *. rewrite Z.sub_diag, Z.pow_0_r, Z.div_1_r in Hexact.
  rewrite (Hexact eq_refl (Z.mod_1_r m)).
  rewrite He1, Z.sub_diag, Z.pow_0_r, Z.div_1_r.
  destruct m as [|p|p]; try lia.
  destruct (Z.leb_spec e (emax - prec)) as [|Hgt]; [done|].
  unfold emax, prec in Hgt. lia.
Qed.

Lemma iter_xO p k : Z.pos (Pos.iter xO p k) = Z.pos p * 2 ^ Z.pos k.
Proof.
  rewrite Pos2Nat.inj_iter, <- (positive_nat_Z k).
  induction (Pos.to_nat k) as [|n IH]; simpl nat_rect.
  - simpl. lia.
  - rewrite Pos2Z.inj_xO, IH, Nat2Z.inj_succ, Z.pow_succ_r by lia. lia.
Qed.

(** An integer below [2 ^ 53] converts exactly. *)
Lemma of_int_small z :
  0 < z < 2 ^ 53 →
  ∃ m e, of_int z = Ok (S754_finite false m e) ∧
         Z.pos m = z * 2 ^ (- e) ∧
         e = Zdigits2 z - 53 ∧ -52 ≤ e ≤ 0.
Proof.
  intros Hz. destruct z as [|p|p]; try lia.
  pose proof (Zdigits2_bound (Z.pos p) 53 ltac:(lia) ltac:(lia)) as Hd.
  pose proof (Zdigits2_spec (Z.pos p) ltac:(lia)) as Hspec.
  assert (1 ≤ Zdigits2 (Z.pos p)).
  { destruct (Z.le_gt_cases 1 (Zdigits2 (Z.pos p))); [done|].
    pose proof (Zdigits2_nonneg (Z.pos p)).
    assert (Zdigits2 (Z.pos p) = 0) as Hzero by lia.
    rewrite Hzero in Hspec. simpl in Hspec. lia. }
  unfold of_int, binary_normalize, binary_round, shl_align.
  change (Z.pos (digits2_pos p)) with (Zdigits2 (Z.pos p)).
  rewrite fexp_eq.
  replace (Z.max (Zdigits2 (Z.pos p) + 0 - 53) (-1074) - 0)
    with (Zdigits2 (Z.pos p) - 53) by lia.
  replace (Z.max (Zdigits2 (Z.pos p) + 0 - 53) (-1074))
    with (Zdigits2 (Z.pos p) - 53) by lia.
  destruct (Zdigits2 (Z.pos p) - 53) as [|k|k] eqn:Hk; try lia.
  - rewrite binary_round_aux_canonical by lia. simpl Z.to_pos.
    exists p, 0. split_and!; [done|simpl; lia|lia..].
  - rewrite binary_round_aux_canonical.
    + simpl Z.to_pos. exists (Pos.iter xO p k), (Z.neg k).
      split_and!; [done| |lia..].
      rewrite iter_xO. by rewrite Pos2Z.opp_neg.
    + lia.
    + rewrite iter_xO, Zdigits2_mul_pow2 by lia. lia.
    + lia.
    + lia.
Qed.

End float_results.

(** ** Coordinate normalization *)

Section normalization.
Import Num.
Local Open Scope Z_scope.

Lemma float_compare_int_Some q z :
  q ≠ S754_nan → ∃ c, float_compare_int q z = Some c.
Proof. destruct q; simpl; eauto. done. Qed.

Lemma float_compare_int_above q :
  float_compare_int q 1 = Some Gt → float_compare_int q 0 = Some Gt.
Proof.
  destruct q as [s|s| |s m e]; simpl; try done.
  unfold cond_Zopp.
  destruct (Z.leb_spec 0 e) as [He|He];
    intros [= Hgt%Z.compare_gt_iff]; f_equal;
    apply Z.compare_gt_iff; [destruct s; lia|].
  pose proof (Z.pow_pos_nonneg 2 (- e) ltac:(lia) ltac:(lia)).
  destruct s; lia.
Qed.

Lemma normalize_clamp q :
  q ≠ S754_nan →
  Num.max (Num.min (PyFloat q) (PyInt 1)) (PyInt 0) = clamp01 q ∧
  in_unit (clamp01 q).
Proof.
  intros Hq.
  destruct (float_compare_int_Some q 0 Hq) as [c0 H0].
  destruct (float_compare_int_Some q 1 Hq) as [c1 H1].
  pose proof (float_compare_int_above q) as Habove.
  unfold in_unit, clamp01, Num.max, Num.min, lt, le.
  rewrite H0, H1 in *.
  destruct c1; destruct c0; simpl; rewrite ?H0, ?H1; try done;
    by specialize (Habove eq_refl).
Qed.

Lemma SFdiv_core_binary_spec m1 e1 m2 e2 :
  0 < m1 → 0 < m2 →
  ∃ q e l, SFdiv_core_binary prec emax m1 e1 m2 e2 = (q, e, l) ∧
           0 ≤ q ∧ e ≤ e1 - e2 ∧
           Zdigits2 q + e ≤ Zdigits2 m1 + e1 - e2.
Proof.
  intros Hm1 Hm2. unfold SFdiv_core_binary.
  set (e := Z.min _ (e1 - e2)).
  assert (e ≤ e1 - e2) as He by (unfold e; lia).
  set (m' := match e1 - e2 - e with
             | 0 => m1 | Z.pos _ => Z.shiftl m1 (e1 - e2 - e)
             | Z.neg _ => 0 end).
  assert (m' = m1 * 2 ^ (e1 - e2 - e)) as Hm'.
  { unfold m'. destruct (e1 - e2 - e) as [|p|p] eqn:Hs; try lia.
    by rewrite Z.shiftl_mul_pow2. }
  destruct (Z.div_eucl m' m2) as [q r] eqn:Hdiv.
  assert (q = m' / m2) as Hq by (unfold Z.div; by rewrite Hdiv).
  assert (0 < 2 ^ (e1 - e2 - e)) by (apply Z.pow_pos_nonneg; lia).
  assert (0 ≤ q) by (rewrite Hq; apply Z.div_pos; nia).
  exists q, e, (new_location m2 r). split_and!; [done..|].
  assert (Zdigits2 q ≤ Zdigits2 m').
  { apply Zdigits2_mono. split; [done|]. rewrite Hq.
    apply Z.div_le_upper_bound; nia. }
  rewrite Hm', Zdigits2_mul_pow2 in * by lia. lia.
Qed.

Lemma truediv_number x dim :
  is_number x = true → 0 < dim < 2 ^ 53 →
  ∃ q, truediv x dim = Ok q ∧ q ≠ S754_nan.
Proof.
  intros Hx Hdim. destruct x as [a|f]; simpl in *.
  - unfold int_true_divide.
    destruct (Z.eqb_spec dim 0); [lia|].
    destruct (Z.eqb_spec a 0); [by eexists|].
    destruct (SFdiv_core_binary_spec (Z.abs a) 0 (Z.abs dim) 0)
      as (q & e & l & -> & Hq & He & Hd); [lia..|].
    apply Z.ltb_lt in Hx.
    pose proof (Zdigits2_bound (Z.abs a) 1023 ltac:(lia) ltac:(lia)).
    pose proof (binary_round_aux_finite
                  (xorb (a <? 0) (dim <? 0)) q e l Hq ltac:(lia) ltac:(lia))
      as Hfin.
    destruct (binary_round_aux prec emax _ q e l); try done; by eexists.
  - destruct (of_int_small dim Hdim) as (m & e & -> & _). simpl.
    eexists. split; [done|].
    destruct f as [s|s| |s mx ex]; try done. simpl.
    destruct (SFdiv_core_binary_spec (Z.pos mx) ex (Z.pos m) e)
      as (q & e' & l & -> & Hq & _); [lia..|].
    by apply binary_round_aux_not_nan.
Qed.

Lemma normalize_number x dim :
  is_number x = true → 0 < dim < 2 ^ 53 →
  ∃ q, truediv x dim = Ok q ∧
       Encoder.normalize x dim = Ok (clamp01 q) ∧ in_unit (clamp01 q).
Proof.
  intros Hx Hdim.
  destruct (truediv_number x dim Hx Hdim) as (q & Hq & Hnan).
  destruct (normalize_clamp q Hnan) as [Hclamp Hunit].
  exists q. unfold Encoder.normalize. rewrite Hq. simpl.
  by rewrite Hclamp.
Qed.

End normalization.

Lemma create_tf_example_boxes w labels p example count is_negative :
  Encoder.create_tf_example w labels p = Ok (example, count, is_negative) →
  ∃ rects classes,
    read_rects w p = Ok (rects, classes) ∧
    mapM (λ r, Encoder.normalize (rect_0 r) (image_width example)) rects
    = Ok (bbox_xmin example) ∧
    mapM (λ r, Encoder.normalize (rect_2 r) (image_width example)) rects
    = Ok (bbox_xmax example) ∧
    mapM (λ r, Encoder.normalize (rect_1 r) (image_height example)) rects
    = Ok (bbox_ymin example) ∧
    mapM (λ r, Encoder.normalize (rect_3 r) (image_height example)) rects
    = Ok (bbox_ymax example).
Proof.
  unfold Encoder.create_tf_example.
  intros (first & _ & (im & _ & (channels & _ & H)%bind_Ok)%bind_Ok)%bind_Ok.
  apply bind_Ok in H as ([rects classes] & Hrects & H).
  apply bind_Ok in H as (xmins & Hxmins & H).
  apply bind_Ok in H as (xmaxs & Hxmaxs & H).
  apply bind_Ok in H as (ymins & Hymins & H).
  apply bind_Ok in H as (ymaxs & Hymaxs & H).
  apply bind_Ok in H as (class_ids & Hids & H).
  simplify_eq/=. exists rects, classes. split_and!; done.
Qed.

Lemma normalized_list (proj : rect → Num.pynum) dim rects vs :
  (0 < dim < 2 ^ 53)%Z →
  Forall (λ r, is_number (proj r) = true) rects →
  mapM (λ r, Encoder.normalize (proj r) dim) rects = Ok vs →
  Forall2 (λ r v, normalized (proj r) dim v) rects vs ∧ Forall in_unit vs.
Proof.
  intros Hdim Hnum Hrun. apply mapM_Ok_Forall2 in Hrun.
  induction Hrun as [|r v rects vs Hv _ IH]; [by split; constructor|].
  apply Forall_cons in Hnum as [Hr Hnum]. destruct (IH Hnum) as [IH1 IH2].
  destruct (normalize_number (proj r) dim Hr Hdim) as (q & Hq & Hnorm & Hunit).
  rewrite Hnorm in Hv. injection Hv as <-.
  split; constructor; try done. by exists q.
Qed.

(** C4. In a record emitted for an image of positive width and height,
    every value of the four coordinate lists is the raw coordinate
    divided by the width (for x) or the height (for y) and clamped into
    [0, 1], so it lies in [0, 1] wherever the raw coordinate is.  The
    raw coordinates are numbers (no NaN), the image dimensions below
    [2 ^ 53]. *)
Theorem coordinate_normalization w labels p example count is_negative
    rects classes :
  Encoder.create_tf_example w labels p = Ok (example, count, is_negative) →
  read_rects w p = Ok (rects, classes) →
  (0 < image_width example < 2 ^ 53)%Z →
  (0 < image_height example < 2 ^ 53)%Z →
  Forall (λ r, rect_is_number r = true) rects →
  (Forall2 (λ r v, normalized (rect_0 r) (image_width example) v)
     rects (bbox_xmin example) ∧
   Forall2 (λ r v, normalized (rect_2 r) (image_width example) v)
     rects (bbox_xmax example) ∧
   Forall2 (λ r v, normalized (rect_1 r) (image_height example) v)
     rects (bbox_ymin example) ∧
   Forall2 (λ r v, normalized (rect_3 r) (image_height example) v)
     rects (bbox_ymax example)) ∧
  Forall in_unit (bbox_xmin example) ∧ Forall in_unit (bbox_xmax example) ∧
  Forall in_unit (bbox_ymin example) ∧ Forall in_unit (bbox_ymax example).
Proof.
  intros Hrun Hread Hw Hh Hnum.
  apply create_tf_example_boxes in Hrun
    as (rects' & classes' & Hread' & Hx0 & Hx1 & Hy0 & Hy1).
  rewrite Hread in Hread'. simplify_eq.
  assert (∀ proj : rect → Num.pynum,
            (∀ r, rect_is_number r = true → is_number (proj r) = true) →
            Forall (λ r, is_number (proj r) = true) rects') as Hproj.
  { intros proj Hp. eapply Forall_impl; [exact Hnum|]. intros r. apply Hp. }
  destruct (normalized_list rect_0 _ _ _ Hw (Hproj rect_0 ltac:(
    intros r; unfold rect_is_number; rewrite !andb_true_iff; tauto)) Hx0).
  destruct (normalized_list rect_2 _ _ _ Hw (Hproj rect_2 ltac:(
    intros r; unfold rect_is_number; rewrite !andb_true_iff; tauto)) Hx1).
  destruct (normalized_list rect_1 _ _ _ Hh (Hproj rect_1 ltac:(
    intros r; unfold rect_is_number; rewrite !andb_true_iff; tauto)) Hy0).
  destruct (normalized_list rect_3 _ _ _ Hh (Hproj rect_3 ltac:(
    intros r; unfold rect_is_number; rewrite !andb_true_iff; tauto)) Hy1).
  by split_and!.
Qed.

Lemma coordinate_normalization_witness :
  (Forall2 (λ r v, normalized (rect_0 r) (image_width Sample.example_b) v)
     [Sample.box (-5) 0 700 500; Sample.box 1 2 3 4]
     (bbox_xmin Sample.example_b) ∧
   Forall2 (λ r v, normalized (rect_2 r) (image_width Sample.example_b) v)
     [Sample.box (-5) 0 700 500; Sample.box 1 2 3 4]
     (bbox_xmax Sample.example_b) ∧
   Forall2 (λ r v, normalized (rect_1 r) (image_height Sample.example_b) v)
     [Sample.box (-5) 0 700 500; Sample.box 1 2 3 4]
     (bbox_ymin Sample.example_b) ∧
   Forall2 (λ r v, normalized (rect_3 r) (image_height Sample.example_b) v)
     [Sample.box (-5) 0 700 500; Sample.box 1 2 3 4]
     (bbox_ymax Sample.example_b)) ∧
  Forall in_unit (bbox_xmin Sample.example_b) ∧
  Forall in_unit (bbox_xmax Sample.example_b) ∧
  Forall in_unit (bbox_ymin Sample.example_b) ∧
  Forall in_unit (bbox_ymax Sample.example_b).
Proof.
  apply (coordinate_normalization Sample.the_world Sample.labels "data/b.txt"
           Sample.example_b (Counter.of_list ["cat"; "dog"]) false
           [Sample.box (-5) 0 700 500; Sample.box 1 2 3 4] ["cat"; "dog"]).
  - reflexivity.
  - reflexivity.
  - vm_compute. split; reflexivity.
  - vm_compute. split; reflexivity.
  - repeat constructor.
Defined.

(** ** The size of the eval set *)

Section split_size.
Import Num.
Local Open Scope Z_scope.

(** Rounding a product [m * 2 ^ e] that is at most the integer [L]
    (which a float holds exactly) gives a float of integer part at most
    [L], and [L] itself when the product is [L]. *)
Lemma round_product m e L :
  0 < m → 0 < L < 2 ^ 53 → e ≤ Zdigits2 L - 53 →
  m ≤ L * 2 ^ (- e) →
  ∃ k, float_to_int (binary_round_aux prec emax false m e loc_Exact) = Ok k ∧
       float_floor (binary_round_aux prec emax false m e loc_Exact) = Some k ∧
       0 ≤ k ≤ L ∧
       (m = L * 2 ^ (- e) → k = L).
Proof.
  intros Hm HL He Hle.
  pose proof (Zdigits2_bound L 53 ltac:(lia) ltac:(lia)) as HdL.
  assert (1 ≤ Zdigits2 L) as HdL1.
  { rewrite Zdigits2_pos by lia. pose proof (Z.log2_nonneg L). lia. }
  set (eL := Zdigits2 L - 53) in *.
  assert (0 < 2 ^ (- e)) as Hpe by (apply Z.pow_pos_nonneg; lia).
  destruct (binary_round_aux_spec false m e loc_Exact ltac:(lia))
    as (m2 & Hcases & Hexact & ->).
  specialize (Hexact eq_refl).
  pose proof (round_exp_ge m e) as Hge1.
  pose proof (round_exp_eq m e) as He1.
  set (e1 := round_exp m e) in *.
  assert (Zdigits2 m ≤ Zdigits2 L - e) as Hdm.
  { replace (Zdigits2 L - e) with (Zdigits2 (L * 2 ^ (- e)))
      by (rewrite Zdigits2_mul_pow2 by lia; lia).
    apply Zdigits2_mono. lia. }
  assert (e1 ≤ eL) as He1L by (unfold eL in *; lia).
  set (P := 2 ^ (e1 - e)) in *. set (A := 2 ^ (- e1)).
  assert (0 < P) by (apply Z.pow_pos_nonneg; lia).
  assert (0 < A) by (apply Z.pow_pos_nonneg; lia).
  assert (2 ^ (- e) = A * P) as HAP.
  { unfold A, P. rewrite <- Z.pow_add_r by lia. f_equal. lia. }
  rewrite HAP in *.
  pose proof (Z.div_mod m P ltac:(lia)) as Hdiv.
  pose proof (Z.mod_pos_bound m P ltac:(lia)) as Hmod.
  set (m1 := m / P) in *.
  assert (0 ≤ m1) by (apply Z.div_pos; lia).
  assert (0 ≤ m2 ≤ L * A) as Hm2.
  { destruct (Z.eq_dec (m mod P) 0) as [Hz|Hnz].
    - rewrite (Hexact Hz). nia.
    - destruct Hcases as [->| ->]; nia. }
  pose proof (round_exp_ge m2 e1) as Hge2.
  pose proof (round_exp_eq m2 e1) as He2.
  set (e2 := round_exp m2 e1) in *.
  assert (Zdigits2 m2 ≤ Zdigits2 L - e1) as Hdm2.
  { replace (Zdigits2 L - e1) with (Zdigits2 (L * 2 ^ (- e1)))
      by (rewrite Zdigits2_mul_pow2 by lia; lia).
    apply Zdigits2_mono. fold A. lia. }
  assert (e2 ≤ eL) as He2L by (unfold eL in *; lia).
  set (Q := 2 ^ (e2 - e1)) in *. set (B := 2 ^ (- e2)).
  assert (0 < Q) by (apply Z.pow_pos_nonneg; lia).
  assert (0 < B) by (apply Z.pow_pos_nonneg; lia).
  assert (A = B * Q) as HBQ.
  { unfold A, B, Q. rewrite <- Z.pow_add_r by lia. f_equal. lia. }
  pose proof (Z.div_mod m2 Q ltac:(lia)) as Hdiv2.
  pose proof (Z.mod_pos_bound m2 Q ltac:(lia)) as Hmod2.
  set (m3 := m2 / Q) in *.
  assert (0 ≤ m3) as Hm3 by (apply Z.div_pos; lia).
  assert (m3 ≤ L * B) as Hm3L by nia.
  assert (m3 / B ≤ L) as Hk by (apply Z.div_le_upper_bound; lia).
  assert (0 ≤ m3 / B) by (apply Z.div_pos; lia).
  assert (m = L * (A * P) → m3 = L * B ∧ e2 = eL) as Hex.
  { intros Heq.
    assert (m mod P = 0) as Hz.
    { rewrite Heq, Z.mul_assoc. apply Z.mod_mul. lia. }
    assert (m1 = L * A) as Hm1.
    { unfold m1. rewrite Heq, Z.mul_assoc. apply Z.div_mul. lia. }
    assert (m2 = L * A) as Hm2' by (rewrite (Hexact Hz); done).
    assert (Zdigits2 m2 = Zdigits2 L - e1) as Hd2.
    { rewrite Hm2'. unfold A. rewrite Zdigits2_mul_pow2 by lia. lia. }
    assert (e2 = eL) as -> by (unfold eL in *; lia).
    split; [|done]. unfold m3. rewrite Hm2', HBQ, Z.mul_assoc.
    apply Z.div_mul. lia. }
  assert (e2 ≤ 0) by (unfold eL in *; lia).
  destruct m3 as [|p|p] eqn:Hp; [| |lia].
  - exists 0. simpl. split_and!; [done|done|lia|lia|].
    intros Heq. destruct (Hex Heq) as [Hm3' _]. nia.
  - assert (e2 <=? emax - prec = true) as ->
      by (apply Z.leb_le; unfold emax, prec; lia).
    exists (Z.pos p / B). simpl float_to_int. simpl float_floor.
    unfold cond_Zopp.
    destruct (Z.leb_spec 0 e2) as [He0|He0].
    + assert (e2 = 0) as He20 by lia.
      assert (B = 1) as HB1 by (unfold B; rewrite He20; done).
      rewrite He20, Z.pow_0_r, HB1, Z.div_1_r, Z.mul_1_r.
      rewrite HB1, Z.div_1_r in *.
      split_and!; [done|done|lia|lia|].
      intros Heq. destruct (Hex Heq) as [Hm3' _]. lia.
    + fold B. split_and!; [done|done|lia|lia|].
      intros Heq. destruct (Hex Heq) as [Hm3' _]. rewrite Hm3'.
      apply Z.div_mul. lia.
Qed.

End split_size.

Section auto_split.
Import Num.
Local Open Scope Z_scope.

Lemma unit_fraction_finite s m e :
  le (PyInt 0) (PyFloat (S754_finite s m e)) = true →
  le (PyFloat (S754_finite s m e)) (PyInt 1) = true →
  s = false ∧ e ≤ 0 ∧ Z.pos m ≤ 2 ^ (- e) ∧
  (float_compare_int (S754_finite s m e) 1 = Some Eq → Z.pos m = 2 ^ (- e)).
Proof.
  unfold le, float_compare_int, cond_Zopp.
  destruct (Z.leb_spec 0 e) as [He|He].
  - pose proof (Z.pow_pos_nonneg 2 e ltac:(lia) He) as Hp.
    destruct s.
    + destruct (Z.compare_spec (- (Z.pos m * 2 ^ e)) 0); try done; nia.
    + intros _.
      destruct (Z.compare_spec (Z.pos m * 2 ^ e) 1) as [Heq|Hlt|Hgt];
        try done; intros _.
      * assert (e = 0) as ->.
        { destruct (Z.eq_dec e 0); [done|].
          assert (2 ^ 1 ≤ 2 ^ e) by (apply Z.pow_le_mono_r; lia).
          rewrite Z.pow_1_r in *. nia. }
        rewrite Z.pow_0_r in *. simpl. split_and!; [done|lia|lia|lia].
      * nia.
  - pose proof (Z.pow_pos_nonneg 2 (- e) ltac:(lia) ltac:(lia)) as Hp.
    destruct s.
    + destruct (Z.compare_spec (Z.neg m) (0 * 2 ^ (- e))); try done; lia.
    + intros _.
      destruct (Z.compare_spec (Z.pos m) (1 * 2 ^ (- e))) as [Heq|Hlt|Hgt];
        try done; intros _; split_and!; try done; lia.
Qed.

(** The size [int(L * f)] of the eval set, for a fraction in [0, 1]. *)
Lemma split_size L f :
  0 ≤ L < 2 ^ 53 →
  le (PyInt 0) (PyFloat f) = true → le (PyFloat f) (PyInt 1) = true →
  ∃ product k,
    int_mul_float L f = Ok product ∧
    float_to_int product = Ok k ∧ float_floor product = Some k ∧
    0 ≤ k ≤ L ∧
    (float_compare_int f 0 = Some Eq → k = 0) ∧
    (float_compare_int f 1 = Some Eq → k = L).
Proof.
  intros HL H0 H1. unfold int_mul_float.
  destruct (Z.eq_dec L 0) as [->|HLpos].
  - change (of_int 0) with (Ok (S754_zero false)). simpl.
    destruct f as [s|s| |s m e]; try done.
    + eexists _, 0. by split_and!.
    + by destruct s.
    + eexists _, 0. by split_and!.
  - destruct (of_int_small L ltac:(lia)) as (mL & eL & -> & HmL & HeL & HeLb).
    simpl. destruct f as [s|s| |s m e]; try done.
    + eexists _, 0. simpl. split_and!; [done..|lia|lia|done|done].
    + by destruct s.
    + destruct (unit_fraction_finite s m e H0 H1) as (-> & He & Hm & Hone).
      simpl.
      assert (2 ^ (- (eL + e)) = 2 ^ (- eL) * 2 ^ (- e)) as Hpow.
      { rewrite <- Z.pow_add_r by lia. f_equal. lia. }
      assert (0 < 2 ^ (- eL)) by (apply Z.pow_pos_nonneg; lia).
      assert (0 < 2 ^ (- e)) by (apply Z.pow_pos_nonneg; lia).
      destruct (round_product (Z.pos (mL * m)) (eL + e) L)
        as (k & Hint & Hfloor & Hk & Hex); [lia|lia|lia| |].
      { rewrite Hpow, Pos2Z.inj_mul, HmL. nia. }
      eexists _, k. split_and!; [done..|lia|lia| |].
      * unfold float_compare_int, cond_Zopp.
        destruct (Z.leb_spec 0 e); intros [= Hc%Z.compare_eq_iff]; lia.
      * intros Heq. apply Hex.
        rewrite Hpow, Pos2Z.inj_mul, HmL, (Hone Heq). lia.
Qed.

End auto_split.

(** C2. In auto-split mode, for a fraction [f] in [0, 1] the eval set is
    the first [floor(L * f)] files and the train set the other
    [L - floor(L * f)], where [L * f] is the product the interpreter
    computes (the binary64 product of [L] and [f]); train and eval
    together are a permutation of the list; [f = 0] gives an empty eval
    set and [f = 1] an empty train set.  The list is shorter than
    [2 ^ 53], so that its length is a float. *)
Theorem auto_split filenames (f : Num.float) :
  (Z.of_nat (length filenames) < 2 ^ 53)%Z →
  Num.le (Num.PyInt 0) (Num.PyFloat f) = true →
  Num.le (Num.PyFloat f) (Num.PyInt 1) = true →
  ∃ product k,
    Num.int_mul_float (Z.of_nat (length filenames)) f = Ok product ∧
    float_floor product = Some (Z.of_nat k) ∧
    Split.get_train_eval_split_filenames filenames f
    = Ok (drop k filenames, take k filenames) ∧
    length (take k filenames) = k ∧
    length (drop k filenames) = length filenames - k ∧
    drop k filenames ++ take k filenames ≡ₚ filenames ∧
    (Num.float_compare_int f 0 = Some Eq → take k filenames = []) ∧
    (Num.float_compare_int f 1 = Some Eq → drop k filenames = []).
Proof.
  intros HL H0 H1.
  destruct (split_size (Z.of_nat (length filenames)) f ltac:(lia) H0 H1)
    as (product & k & Hmul & Hint & Hfloor & Hk & Hzero & Hone).
  exists product, (Z.to_nat k).
  assert (Split.slice_bound (length filenames) k = Z.to_nat k) as Hbound.
  { unfold Split.slice_bound. destruct (Z.ltb_spec k 0); [lia|].
    f_equal. lia. }
  split_and!.
  - done.
  - rewrite Hfloor. f_equal. lia.
  - unfold Split.get_train_eval_split_filenames.
    rewrite Hmul. simpl. rewrite Hint. simpl. by rewrite Hbound.
  - rewrite length_take. lia.
  - rewrite length_drop. lia.
  - rewrite Permutation_app_comm. by rewrite take_drop.
  - intros Hf. rewrite (Hzero Hf). done.
  - intros Hf. rewrite (Hone Hf), Nat2Z.id. apply drop_all.
Qed.

Lemma auto_split_witness :
  ∃ product k,
    Num.int_mul_float (Z.of_nat (length ["a"; "b"; "c"; "d"; "e"; "f"; "g"]))
      (S754_finite false 5404319552844595 (-54)) = Ok product ∧
    float_floor product = Some (Z.of_nat k) ∧
    Split.get_train_eval_split_filenames ["a"; "b"; "c"; "d"; "e"; "f"; "g"]
      (S754_finite false 5404319552844595 (-54))
    = Ok (drop k ["a"; "b"; "c"; "d"; "e"; "f"; "g"],
          take k ["a"; "b"; "c"; "d"; "e"; "f"; "g"]) ∧
    length (take k ["a"; "b"; "c"; "d"; "e"; "f"; "g"]) = k ∧
    length (drop k ["a"; "b"; "c"; "d"; "e"; "f"; "g"])
    = length ["a"; "b"; "c"; "d"; "e"; "f"; "g"] - k ∧
    drop k ["a"; "b"; "c"; "d"; "e"; "f"; "g"]
      ++ take k ["a"; "b"; "c"; "d"; "e"; "f"; "g"]
    ≡ₚ ["a"; "b"; "c"; "d"; "e"; "f"; "g"] ∧
    (Num.float_compare_int (S754_finite false 5404319552844595 (-54)) 0
     = Some Eq → take k ["a"; "b"; "c"; "d"; "e"; "f"; "g"] = []) ∧
    (Num.float_compare_int (S754_finite false 5404319552844595 (-54)) 1
     = Some Eq → drop k ["a"; "b"; "c"; "d"; "e"; "f"; "g"] = []).
Proof.
  apply (auto_split ["a"; "b"; "c"; "d"; "e"; "f"; "g"]
           (S754_finite false 5404319552844595 (-54))).
  - reflexivity.
  - reflexivity.
  - reflexivity.
Defined.

(** The fraction [0.3] (the float [5404319552844595 * 2 ^ -54]) of seven
    files: two eval files, five train files. *)
Example auto_split_7 :
  Split.get_train_eval_split_filenames ["a"; "b"; "c"; "d"; "e"; "f"; "g"]
    (S754_finite false 5404319552844595 (-54))
  = Ok (["c"; "d"; "e"; "f"; "g"], ["a"; "b"]).
Proof. reflexivity. Qed.

(** A shard whose second file has a class the vocabulary lacks: the
    writer raises at that file, after the record of the first file and
    before any record of the third. *)
Example shard_fails_fast :
  (Writer.write_record_from_list Sample.the_world "train-00" Sample.labels
     ["data/a.txt"; "zzz"; "data/c.txt"] "data/train-00.record" []).1
  = Raise (KeyError "owl") ∧
  encoded_prefix Sample.the_world Sample.labels
    ["data/a.txt"; "zzz"; "data/c.txt"]
  = encoded_prefix Sample.the_world Sample.labels ["data/a.txt"] ∧
  length (Writer.write_record_from_list Sample.the_world "train-00"
            Sample.labels ["data/a.txt"; "zzz"; "data/c.txt"]
            "data/train-00.record" []).2 = 3.
Proof. split_and!; reflexivity. Qed.

(** The product is the rounded one: ten files and the float nearest to
    [0.7] (which is below [0.7]) give the product [7.0] and seven eval
    files, where the exact product of the two numbers has the integer
    part six. *)
Example auto_split_rounds :
  Num.int_mul_float 10 (S754_finite false 6305039478318694 (-53))
  = Ok (S754_finite false 7881299347898368 (-50)) ∧
  float_floor (S754_finite false 7881299347898368 (-50)) = Some 7%Z ∧
  (10 * 6305039478318694 / 2 ^ 53 = 6)%Z.
Proof. split_and!; reflexivity. Qed.

(** * Further properties of the script *)

(** ** The split for any fraction *)

Section split_any_fraction.
Import Num.
Local Open Scope Z_scope.

Lemma slice_bound_le len k : (Split.slice_bound len k ≤ len)%nat.
Proof.
  unfold Split.slice_bound. destruct (Z.ltb_spec k 0); lia.
Qed.

Lemma binary_round_aux_opp s m e l :
  0 ≤ m →
  binary_round_aux prec emax (negb s) m e l
  = SFopp (binary_round_aux prec emax s m e l).
Proof.
  intros Hm. unfold binary_round_aux.
  destruct (shr_fexp prec emax m e l) as [mrs1 e1].
  destruct (shr_fexp prec emax _ e1 loc_Exact) as [mrs2 e2].
  destruct (shr_m mrs2); [done| |done]. by destruct (e2 <=? emax - prec).
Qed.

Lemma SFmul_opp a f :
  SFmul prec emax a (SFopp f) = SFopp (SFmul prec emax a f).
Proof.
  destruct a as [sa|sa| |sa ma ea], f as [sf|sf| |sf mf ef]; simpl;
    try done; try (by destruct sa, sf).
  replace (xorb sa (negb sf)) with (negb (xorb sa sf)) by (by destruct sa, sf).
  by apply binary_round_aux_opp.
Qed.

Lemma float_to_int_opp f :
  float_to_int (SFopp f) = Z.opp <$> float_to_int f.
Proof.
  destruct f as [s|s| |s m e]; simpl; try done.
  do 2 f_equal. unfold cond_Zopp. destruct s; simpl; lia.
Qed.

End split_any_fraction.

(** X1. The split never validates the fraction.  For a list shorter than
    [2 ^ 53]: a NaN fraction raises [ValueError]; an infinite fraction
    raises [OverflowError], or [ValueError] when the list is empty (the
    product [0 * inf] is a NaN); any other fraction either overflows in
    the product ([OverflowError]) or returns a prefix of the list as eval
    set and the matching suffix as train set. *)
Theorem split_outcomes filenames (split : Num.float) :
  (Z.of_nat (length filenames) < 2 ^ 53)%Z →
  match split with
  | S754_nan =>
      Split.get_train_eval_split_filenames filenames split = Raise ValueError
  | S754_infinity _ =>
      Split.get_train_eval_split_filenames filenames split
      = Raise (if decide (length filenames = 0) then ValueError
               else OverflowError)
  | _ =>
      Split.get_train_eval_split_filenames filenames split
      = Raise OverflowError ∨
      ∃ k, k ≤ length filenames ∧
           Split.get_train_eval_split_filenames filenames split
           = Ok (drop k filenames, take k filenames)
  end.
Proof.
  intros HL. unfold Split.get_train_eval_split_filenames, Num.int_mul_float.
  destruct (decide (length filenames = 0)) as [Hz|Hnz].
  - rewrite Hz. change (Num.of_int (Z.of_nat 0)) with (Ok (S754_zero false)).
    destruct split as [s|s| |s m e]; simpl; try done;
      right; exists 0; (split; [lia|done]).
  - destruct (of_int_small (Z.of_nat (length filenames)) ltac:(lia))
      as (mL & eL & -> & _).
    destruct split as [s|s| |s m e]; try done.
    + right. eexists. split; [|done]. apply slice_bound_le.
    + simpl.
      pose proof (binary_round_aux_not_nan (xorb false s)
                    (Z.pos (mL * m)) (eL + e) loc_Exact ltac:(lia)) as Hnan.
      destruct (binary_round_aux _ _ _ _ _ _) as [s'|s'| |s' m' e'];
        simpl; [right|by left|done|right];
        (eexists; split; [|done]; apply slice_bound_le).
Qed.

Lemma split_outcomes_witness :
  Split.get_train_eval_split_filenames ["a"; "b"; "c"] (S754_infinity false)
  = Raise (if decide (length ["a"; "b"; "c"] = 0) then ValueError
           else OverflowError).
Proof.
  apply (split_outcomes ["a"; "b"; "c"] (S754_infinity false)). reflexivity.
Defined.

(** X2. A negative fraction is accepted: with [g] in [0, 1] and
    [k = int(L * g)], the fraction [-g] gives the size [-k], and the slice
    then counts from the end: the train set is the last [k] files and the
    eval set all the files before them; when [k = 0] the eval set is
    empty. *)
Theorem split_negative_fraction filenames (g : Num.float) :
  (Z.of_nat (length filenames) < 2 ^ 53)%Z →
  Num.le (Num.PyInt 0) (Num.PyFloat g) = true →
  Num.le (Num.PyFloat g) (Num.PyInt 1) = true →
  ∃ product k,
    Num.int_mul_float (Z.of_nat (length filenames)) g = Ok product ∧
    Num.float_to_int product = Ok (Z.of_nat k) ∧
    k ≤ length filenames ∧
    Split.get_train_eval_split_filenames filenames (SFopp g)
    = if decide (k = 0) then Ok (filenames, [])
      else Ok (drop (length filenames - k) filenames,
               take (length filenames - k) filenames).
Proof.
  intros HL H0 H1.
  destruct (split_size (Z.of_nat (length filenames)) g ltac:(lia) H0 H1)
    as (product & k & Hmul & Hint & _ & Hk & _).
  exists product, (Z.to_nat k). rewrite Z2Nat.id by lia.
  split_and!; [done|done|lia|].
  unfold Split.get_train_eval_split_filenames, Num.int_mul_float in *.
  apply bind_Ok in Hmul as (a & Ha & [= <-]). rewrite Ha. simpl.
  rewrite SFmul_opp, float_to_int_opp, Hint. simpl.
  unfold Split.slice_bound. case_decide as Hk0.
  - assert (k = 0%Z) as -> by lia.
    replace (Z.to_nat _) with 0%nat
      by (destruct (Z.ltb_spec (- 0) 0); lia).
    done.
  - destruct (Z.ltb_spec (- k) 0); [|lia].
    do 3 f_equal; lia.
Qed.

Lemma split_negative_fraction_witness :
  ∃ product k,
    Num.int_mul_float (Z.of_nat (length ["a"; "b"; "c"; "d"]))
      (S754_finite false (2 ^ 52) (-53)) = Ok product ∧
    Num.float_to_int product = Ok (Z.of_nat k) ∧
    k ≤ length ["a"; "b"; "c"; "d"] ∧
    Split.get_train_eval_split_filenames ["a"; "b"; "c"; "d"]
      (SFopp (S754_finite false (2 ^ 52) (-53)))
    = if decide (k = 0) then Ok (["a"; "b"; "c"; "d"], [])
      else Ok (drop (length ["a"; "b"; "c"; "d"] - k) ["a"; "b"; "c"; "d"],
               take (length ["a"; "b"; "c"; "d"] - k) ["a"; "b"; "c"; "d"]).
Proof.
  apply (split_negative_fraction ["a"; "b"; "c"; "d"]
           (S754_finite false (2 ^ 52) (-53))); reflexivity.
Defined.

Example split_minus_half :
  Split.get_train_eval_split_filenames ["a"; "b"; "c"; "d"]
    (S754_finite true (2 ^ 52) (-53))
  = Ok (["c"; "d"], ["a"; "b"]).
Proof. reflexivity. Qed.

(** ** Discovery: the filter and the shuffle *)

Lemma swap_Permutation (x : list string) i j : Discovery.swap x i j ≡ₚ x.
Proof.
  unfold Discovery.swap.
  destruct (x !! i) as [xi|] eqn:Hi; [|done].
  destruct (x !! j) as [xj|] eqn:Hj; [|done].
  apply Permutation_inj. split; [by rewrite !length_insert|].
  exists (λ k, if decide (k = i) then j else if decide (k = j) then i else k).
  split.
  - intros a b. repeat case_decide; congruence.
  - intros k. pose proof (lookup_lt_Some _ _ _ Hi).
    pose proof (lookup_lt_Some _ _ _ Hj).
    rewrite !list_lookup_insert, !length_insert.
    repeat case_decide; simplify_eq; try done; try lia;
      destruct_and?; simplify_eq; try done; lia.
Qed.

Lemma shuffle_from_Permutation w i (x : list string) g :
  (Discovery.shuffle_from w i x g).1 ≡ₚ x.
Proof.
  revert x g. induction i as [|i IH]; intros x g; simpl; [done|].
  destruct (randbelow w g (S (S i))) as [j g'].
  by rewrite IH, swap_Permutation.
Qed.

Lemma string_length_app (a b : string) :
  String.length (a +:+ b) = String.length a + String.length b.
Proof. induction a as [|c a IH]; simpl; [done|]. by rewrite IH. Qed.

Lemma substring_all (s : string) : substring 0 (String.length s) s = s.
Proof. induction s as [|c s IH]; simpl; [done|]. by rewrite IH. Qed.

Lemma substring_app_r (pre suf : string) :
  substring (String.length pre) (String.length suf) (pre +:+ suf) = suf.
Proof.
  induction pre as [|c pre IH]; simpl; [|done]. apply substring_all.
Qed.

Lemma substring_split (s : string) n k :
  n + k = String.length s → s = substring 0 n s +:+ substring n k s.
Proof.
  revert n k. induction s as [|c s IH]; intros n k Hlen; simpl in *.
  - by destruct n, k.
  - destruct n as [|n].
    + destruct k as [|k]; [done|]. injection Hlen as ->.
      symmetry. apply (substring_all (String c s)).
    + change (String c s
              = String c (substring 0 n s +:+ substring n k s)).
      f_equal. apply IH. lia.
Qed.

(** [s.endswith(suffix)] holds exactly of the strings that end with the
    suffix. *)
Lemma endswith_spec s suffix :
  Discovery.endswith s suffix = true ↔ ∃ pre, s = pre +:+ suffix.
Proof.
  unfold Discovery.endswith. split.
  - case_decide as Hlen; [|done]. intros Heq%String.eqb_eq.
    exists (substring 0 (String.length s - String.length suffix) s).
    rewrite <- Heq at 2. apply substring_split. lia.
  - intros [pre ->]. rewrite string_length_app.
    rewrite decide_True by lia. apply String.eqb_eq.
    replace (String.length pre + String.length suffix - String.length suffix)
      with (String.length pre) by lia.
    apply substring_app_r.
Qed.

(** X3. Discovery returns, in some order and each once per occurrence,
    exactly the files the walk yields whose name ends in [.txt] and not
    in [rects.txt], each joined to the directory it was found in; the
    shuffle loses and repeats nothing. *)
Theorem discovery_files w folder g p :
  (Discovery.get_shuffled_filenames w folder g).1
  ≡ₚ Discovery.collect w folder ∧
  (p ∈ (Discovery.get_shuffled_filenames w folder g).1 ↔
   ∃ root dirs files name stem,
     (root, dirs, files) ∈ Discovery.os_walk w folder ∧ name ∈ files ∧
     name = stem +:+ ".txt" ∧ (∀ stem', name ≠ stem' +:+ "rects.txt") ∧
     p = path_join w root name).
Proof.
  assert ((Discovery.get_shuffled_filenames w folder g).1
          ≡ₚ Discovery.collect w folder) as Hperm
    by apply shuffle_from_Permutation.
  split; [done|]. rewrite Hperm. unfold Discovery.collect.
  rewrite list_elem_of_bind. split.
  - intros ([[root dirs] files] & Hp & Hwalk).
    apply list_elem_of_bind in Hp as (name & Hp & Hname).
    destruct (Discovery.endswith name ".txt") eqn:Htxt; simpl in Hp;
      [|by apply elem_of_nil in Hp].
    destruct (Discovery.endswith name "rects.txt") eqn:Hrects;
      [by apply elem_of_nil in Hp|].
    apply list_elem_of_singleton in Hp as ->.
    apply endswith_spec in Htxt as [stem ->].
    exists root, dirs, files, (stem +:+ ".txt"), stem.
    split_and!; [done..| |done].
    intros stem' Heq.
    assert (Discovery.endswith (stem +:+ ".txt") "rects.txt" = true)
      by (apply endswith_spec; by exists stem').
    congruence.
  - intros (root & dirs & files & name & stem & Hwalk & Hname & -> & Hno & ->).
    exists (root, dirs, files). split; [|done].
    apply list_elem_of_bind. exists (stem +:+ ".txt"). split; [|done].
    assert (Discovery.endswith (stem +:+ ".txt") ".txt" = true) as ->
      by (apply endswith_spec; by exists stem).
    destruct (Discovery.endswith (stem +:+ ".txt") "rects.txt") eqn:Hrects.
    + apply endswith_spec in Hrects as [stem' Heq]. by destruct (Hno stem').
    + simpl. by apply list_elem_of_singleton.
Qed.

(** ** The vocabulary builder on a file it cannot read *)

Lemma gather_Raise w acc pre f post e :
  readable w pre → read_rects w f = Raise e →
  Labels.gather w acc (pre ++ f :: post) = Raise e.
Proof.
  intros Hpre Hf. revert acc.
  induction Hpre as [|p pre [[rects classes] Hp] _ IH]; intros acc; simpl.
  - by rewrite Hf.
  - rewrite Hp. simpl. apply IH.
Qed.

(** X4. The vocabulary builder has no handler: when the box reader fails
    on a file, the builder raises the exception of the first such file,
    and no vocabulary is produced, whatever the other files hold. *)
Theorem labels_first_unreadable w pre f post e :
  readable w pre → read_rects w f = Raise e →
  Labels.get_labels_from_filenames w (pre ++ f :: post) = Raise e.
Proof.
  intros Hpre Hf. unfold Labels.get_labels_from_filenames.
  by rewrite (gather_Raise w [] pre f post e).
Qed.

Lemma labels_first_unreadable_witness :
  Labels.get_labels_from_filenames Sample.the_world
    (["data/a.txt"] ++ "data/missing.txt" :: ["data/b.txt"])
  = Raise OSError.
Proof.
  apply (labels_first_unreadable Sample.the_world
           ["data/a.txt"] "data/missing.txt" ["data/b.txt"] OSError).
  - repeat constructor. eexists. reflexivity.
  - reflexivity.
Defined.

(** ** The tasks of a run *)

Lemma get_filenames_Ok w a g train_filenames eval_filenames :
  Tasks.get_filenames w a g = Ok (train_filenames, eval_filenames) →
  train_filenames ++ eval_filenames
  ≡ₚ Discovery.collect w (folder a)
     ++ match eval_folder a with
        | Some ef => Discovery.collect w ef
        | None => []
        end.
Proof.
  unfold Tasks.get_filenames.
  pose proof (shuffle_from_Permutation w
                (length (Discovery.collect w (folder a)) - 1)
                (Discovery.collect w (folder a)) g) as Hperm.
  change (Discovery.shuffle_from w _ _ g)
    with (Discovery.get_shuffled_filenames w (folder a) g) in Hperm.
  destruct (Discovery.get_shuffled_filenames w (folder a) g) as [train g1].
  simpl in Hperm. destruct (eval_folder a) as [ef|].
  - intros [= <- <-]. rewrite Hperm. f_equiv.
    apply shuffle_from_Permutation.
  - destruct (eval a).
    + unfold Split.get_train_eval_split_filenames.
      intros (product & _ & (k & _ & [= <- <-])%bind_Ok)%bind_Ok.
      rewrite (right_id_L [] (++)), Permutation_app_comm, take_drop.
      done.
    + intros [= <- <-]. by rewrite Hperm.
Qed.

Lemma tasks_for_Permutation w folder name number labels filenames tasks :
  Tasks.tasks_for w folder name number labels filenames = Ok tasks →
  concat (task_data <$> tasks) ≡ₚ filenames.
Proof.
  unfold Tasks.tasks_for.
  destruct (split_into_lists_round_robin number filenames)
    as (shards & -> & _ & _ & Hperm).
  simpl. intros [= <-]. by rewrite make_tasks_data.
Qed.

(** X5. Whatever the mode, the shard tasks of a run hold together, each
    once, exactly the annotation files discovery collected in the train
    folder and, when there is one, in the eval folder: between discovery
    and the tasks no file is dropped or duplicated (and a file found in
    both folders is in a train task and in an eval task). *)
Theorem tasks_cover_files w a g tasks labels :
  Tasks.get_record_writing_tasks w a g = Ok (tasks, labels) →
  concat (task_data <$> tasks)
  ≡ₚ Discovery.collect w (folder a)
     ++ match eval_folder a with
        | Some ef => Discovery.collect w ef
        | None => []
        end.
Proof.
  intros (train & evalf & tt & et & Hfiles & _ & Htt & Het & ->)
    %get_record_writing_tasks_Ok.
  rewrite fmap_app, concat_app.
  rewrite (tasks_for_Permutation _ _ _ _ _ _ _ Htt).
  rewrite (tasks_for_Permutation _ _ _ _ _ _ _ Het).
  by apply get_filenames_Ok in Hfiles.
Qed.

Lemma tasks_cover_files_witness :
  concat (task_data <$> Sample.the_tasks)
  ≡ₚ Discovery.collect Sample.the_world (folder Sample.the_args)
     ++ match eval_folder Sample.the_args with
        | Some ef => Discovery.collect Sample.the_world ef
        | None => []
        end.
Proof.
  apply (tasks_cover_files Sample.the_world Sample.the_args 42%Z
           Sample.the_tasks Sample.labels).
  reflexivity.
Defined.

(** ** Task identifiers *)

Lemma pretty_N_go_head x s :
  (0 < x)%N → ∃ c t, pretty_N_go x s = String c t ∧ c ≠ "0"%char.
Proof.
  revert s. induction (N.lt_wf_0 x) as [x _ IH]; intros s Hx.
  rewrite pretty_N_go_step by done.
  destruct (decide (x < 10)%N) as [Hlt|Hge].
  - rewrite N.div_small, N.mod_small, pretty_N_go_0 by done.
    eexists _, _. split; [done|].
    assert (x = 1 ∨ x = 2 ∨ x = 3 ∨ x = 4 ∨ x = 5 ∨ x = 6
            ∨ x = 7 ∨ x = 8 ∨ x = 9)%N as Hcases by lia.
    naive_solver.
  - apply IH.
    + apply N.div_lt; lia.
    + apply N.div_str_pos. lia.
Qed.

Lemma pretty_nat_head (n : nat) :
  pretty n = "0" ∨ ∃ c t, pretty n = String c t ∧ c ≠ "0"%char.
Proof.
  unfold pretty, pretty_nat, pretty, pretty_N. case_decide as Hn; [by left|].
  right. apply pretty_N_go_head. lia.
Qed.

Lemma fmt_02d_inj i j : Tasks.fmt_02d i = Tasks.fmt_02d j → i = j.
Proof.
  unfold Tasks.fmt_02d.
  assert (∀ a b : nat, String.length (pretty a) < 2 →
            ¬ String.length (pretty b) < 2 →
            "0" +:+ pretty a ≠ pretty b) as Hmixed.
  { intros a b Ha Hb Heq.
    destruct (pretty_nat_head b) as [H0|(c & t & Hct & Hc)].
    - rewrite H0 in Hb. simpl in Hb. lia.
    - rewrite Hct in Heq. by injection Heq as <- _. }
  repeat case_decide; intros Heq.
  - injection Heq as Heq. by apply (inj pretty).
  - by destruct (Hmixed i j).
  - by destruct (Hmixed j i).
  - by apply (inj pretty).
Qed.

Lemma make_tasks_lookup w folder name labels lists i t :
  Tasks.make_tasks w folder name labels lists !! i = Some t →
  task_id t = name +:+ "-" +:+ Tasks.fmt_02d i ∧
  task_out_path t
  = path_join w folder (name +:+ "-" +:+ Tasks.fmt_02d i +:+ ".record").
Proof.
  unfold Tasks.make_tasks. rewrite list_lookup_imap.
  destruct (lists !! i); intros; by simplify_eq/=.
Qed.

Lemma string_app_assoc (a b c : string) : (a +:+ b) +:+ c = a +:+ b +:+ c.
Proof.
  induction a as [|x a IH]; [done|].
  change (String x ((a +:+ b) +:+ c) = String x (a +:+ b +:+ c)).
  by rewrite IH.
Qed.

Lemma string_app_inv_tail (a b s : string) : a +:+ s = b +:+ s → a = b.
Proof.
  intros Heq.
  assert (String.length a = String.length b) as Hlen.
  { apply (f_equal String.length) in Heq.
    rewrite !string_length_app in Heq. lia. }
  revert b Heq Hlen. induction a as [|x a IH]; intros [|y b] Heq Hlen;
    try done.
  change (String x (a +:+ s) = String y (b +:+ s)) in Heq.
  injection Heq as -> Heq. f_equal. apply IH; [done|].
  by injection Hlen.
Qed.

Lemma make_tasks_ids_NoDup w folder name labels lists :
  NoDup (task_id <$> Tasks.make_tasks w folder name labels lists).
Proof.
  apply NoDup_alt. intros i j x.
  rewrite !list_lookup_fmap.
  destruct (Tasks.make_tasks w folder name labels lists !! i) as [t1|] eqn:H1;
    [|done].
  destruct (Tasks.make_tasks w folder name labels lists !! j) as [t2|] eqn:H2;
    [|done].
  apply make_tasks_lookup in H1 as [H1 _].
  apply make_tasks_lookup in H2 as [H2 _].
  simpl. intros [= <-] [= Heq]. rewrite H1, H2 in Heq.
  apply (inj (String.append name)), (inj (String.append "-")) in Heq.
  by apply fmt_02d_inj.
Qed.

(** X6. The tasks of a run have pairwise distinct identifiers
    ([train-00], [train-01], ..., [eval-00], ...), the record file of a
    task is the run folder joined with the identifier and [.record], and
    so, where joining to the folder is injective, no two shard writers
    get the same file. *)
Theorem task_ids_distinct w a g tasks labels :
  Tasks.get_record_writing_tasks w a g = Ok (tasks, labels) →
  NoDup (task_id <$> tasks) ∧
  (∀ t, t ∈ tasks →
        task_out_path t = path_join w (folder a) (task_id t +:+ ".record")) ∧
  ((∀ x y, path_join w (folder a) x = path_join w (folder a) y → x = y) →
   NoDup (task_out_path <$> tasks)).
Proof.
  intros (train & evalf & tt & et & _ & _ & Htt & Het & ->)
    %get_record_writing_tasks_Ok.
  unfold Tasks.tasks_for in Htt, Het.
  apply bind_Ok in Htt as (tl & _ & [= <-]).
  apply bind_Ok in Het as (el & _ & [= <-]).
  assert (NoDup (task_id <$>
                   (Tasks.make_tasks w (folder a) "train" labels tl
                    ++ Tasks.make_tasks w (folder a) "eval" labels el)))
    as Hids.
  { rewrite fmap_app. apply NoDup_app.
    split_and!; [apply make_tasks_ids_NoDup| |apply make_tasks_ids_NoDup].
    intros x [t1 [-> [i H1]%list_elem_of_lookup]]%list_elem_of_fmap
             [t2 [Heq [j H2]%list_elem_of_lookup]]%list_elem_of_fmap.
    apply make_tasks_lookup in H1 as [H1 _].
    apply make_tasks_lookup in H2 as [H2 _].
    rewrite H1, H2 in Heq. discriminate. }
  assert (∀ t, t ∈ Tasks.make_tasks w (folder a) "train" labels tl
                   ++ Tasks.make_tasks w (folder a) "eval" labels el →
               task_out_path t
               = path_join w (folder a) (task_id t +:+ ".record")) as Hpaths.
  { intros t [[i Ht]%list_elem_of_lookup|[i Ht]%list_elem_of_lookup]
             %elem_of_app;
      apply make_tasks_lookup in Ht as [-> ->];
      by rewrite !string_app_assoc. }
  split_and!; [done..|].
  intros Hinj. apply NoDup_alt. intros i j p.
  rewrite !list_lookup_fmap.
  destruct (_ !! i) as [t1|] eqn:H1; [|done].
  destruct (_ !! j) as [t2|] eqn:H2; [|done].
  simpl. intros [= <-] [= Heq].
  rewrite !Hpaths in Heq by by eapply list_elem_of_lookup_2.
  apply Hinj, string_app_inv_tail in Heq.
  apply (proj1 (NoDup_alt _) Hids i j (task_id t1));
    rewrite list_lookup_fmap; [by rewrite H1|rewrite H2; simpl; congruence].
Qed.

Lemma task_ids_distinct_witness :
  NoDup (task_id <$> Sample.the_tasks) ∧
  (∀ t, t ∈ Sample.the_tasks →
        task_out_path t
        = path_join Sample.the_world (folder Sample.the_args)
            (task_id t +:+ ".record")) ∧
  ((∀ x y, path_join Sample.the_world (folder Sample.the_args) x
           = path_join Sample.the_world (folder Sample.the_args) y → x = y) →
   NoDup (task_out_path <$> Sample.the_tasks)).
Proof.
  apply (task_ids_distinct Sample.the_world Sample.the_args 42%Z
           Sample.the_tasks Sample.labels).
  reflexivity.
Defined.

(** ** What a shard writer returns *)

Lemma counter_count_nonneg c k : counter_nonneg c → (0 ≤ Counter.count c k)%Z.
Proof.
  unfold Counter.count. induction 1 as [|[k' v'] c Hv _ IH]; simpl; [done|].
  by case_decide.
Qed.

Lemma dict_set_nonneg c k v :
  counter_nonneg c → (0 ≤ v)%Z → counter_nonneg (Dict.set c k v).
Proof.
  intros Hc Hv. induction Hc as [|[k' v'] c Hv' Hc IH]; simpl.
  - by repeat constructor.
  - case_decide; by constructor.
Qed.

Lemma counter_of_list_nonneg l : counter_nonneg (Counter.of_list l).
Proof.
  unfold Counter.of_list.
  enough (∀ c, counter_nonneg c →
               counter_nonneg
                 (foldl (λ c k, Dict.set c k (Counter.count c k + 1)%Z) c l))
    as H by (apply H; constructor).
  induction l as [|x l IH]; intros c Hc; simpl; [done|].
  apply IH, dict_set_nonneg; [done|].
  pose proof (counter_count_nonneg c x Hc). lia.
Qed.

Lemma counter_filter_total c :
  counter_nonneg c →
  Counter.total (filter (λ kv, (0 < kv.2)%Z) c) = Counter.total c ∧
  counter_nonneg (filter (λ kv, (0 < kv.2)%Z) c).
Proof.
  induction 1 as [|[k v] c Hv _ [IH1 IH2]]; [by split; [|constructor]|].
  rewrite (filter_cons (λ kv : string * Z, (0 < kv.2)%Z)).
  unfold Counter.total in *. simpl in *. case_decide; simpl.
  - split; [f_equal; exact IH1|by apply Forall_cons].
  - split; [|done]. etrans; [exact IH1|]. lia.
Qed.

Lemma counter_iadd_total c other :
  counter_nonneg c → counter_nonneg other →
  Counter.total (Counter.iadd c other)
  = (Counter.total c + Counter.total other)%Z ∧
  counter_nonneg (Counter.iadd c other).
Proof.
  intros Hc Hother. unfold Counter.iadd.
  enough (Counter.total
            (foldl (λ c kv, Dict.set c kv.1 (Counter.count c kv.1 + kv.2)%Z)
               c other)
          = (Counter.total c + Counter.total other)%Z ∧
          counter_nonneg
            (foldl (λ c kv, Dict.set c kv.1 (Counter.count c kv.1 + kv.2)%Z)
               c other)) as [Htotal Hnonneg].
  { destruct (counter_filter_total _ Hnonneg) as [Hf ?]. split; [|done].
    etrans; [exact Hf|exact Htotal]. }
  revert c Hc. induction Hother as [|[k v] other Hv _ IH]; intros c Hc; simpl.
  - split; [lia|done].
  - simpl in Hv. pose proof (counter_count_nonneg c k Hc).
    destruct (IH (Dict.set c k (Counter.count c k + v)%Z)) as [-> Hn].
    + apply dict_set_nonneg; [done|lia].
    + rewrite counter_total_set. split; [lia|done].
Qed.

Lemma shard_counts_total w data :
  Counter.total (shard_counts w data)
  = Z.of_nat (length (data ≫= class_names w)).
Proof.
  unfold shard_counts.
  enough (∀ c, counter_nonneg c →
            Counter.total
              (foldl (λ c p, Counter.iadd c (Counter.of_list (class_names w p)))
                 c data)
            = (Counter.total c + Z.of_nat (length (data ≫= class_names w)))%Z)
    as H by (rewrite H by constructor; simpl; lia).
  induction data as [|p data IH]; intros c Hc.
  - change (Counter.total c = (Counter.total c + 0)%Z). lia.
  - destruct (counter_iadd_total c (Counter.of_list (class_names w p)) Hc
                (counter_of_list_nonneg _)) as [Htotal Hn].
    rewrite bind_cons, length_app. cbn [foldl].
    rewrite IH, Htotal, counter_total_of_list by done. lia.
Qed.

Lemma write_loop_counts w labels out_path data examples_count negatives tr :
  first_failure w labels data = None →
  (Writer.write_loop w labels out_path data examples_count negatives tr).1
  = Ok (foldl (λ c p, Counter.iadd c (Counter.of_list (class_names w p)))
          examples_count data,
        (negatives
         + Z.of_nat (length (filter (λ p, boxes w p = 0%nat) data)))%Z).
Proof.
  revert examples_count negatives tr.
  induction data as [|p data IH]; intros examples_count negatives tr Hff.
  - simpl. do 2 f_equal. lia.
  - cbn [Writer.write_loop first_failure] in *.
    destruct (Encoder.create_tf_example w labels p)
      as [[[example count] is_negative]|e] eqn:Hp; [|done].
    rewrite io_bind_lift_Ok. cbv beta iota. rewrite io_bind_emit.
    rewrite IH by done.
    apply create_tf_example_Ok in Hp
      as (rects & classes & Hread & _ & _ & _ & _ & _ & _ & -> & ->).
    assert (boxes w p = length rects) as Hb
      by (unfold boxes; by rewrite Hread).
    assert (class_names w p = classes) as Hc
      by (unfold class_names; by rewrite Hread).
    simpl. rewrite Hc, filter_cons, Hb. do 2 f_equal.
    destruct (decide (length rects = 0%nat)).
    + rewrite bool_decide_eq_true_2 by done. simpl. lia.
    + rewrite bool_decide_eq_false_2 by done. lia.
Qed.

Lemma encoded_prefix_all w labels data :
  first_failure w labels data = None →
  Forall2 (λ p example, ∃ count is_negative,
             Encoder.create_tf_example w labels p
             = Ok (example, count, is_negative))
    data (encoded_prefix w labels data).
Proof.
  induction data as [|p data IH]; simpl; [constructor|].
  destruct (Encoder.create_tf_example w labels p)
    as [[[example count] is_negative]|e] eqn:Hp; [|done].
  intros Hff. constructor; [by eexists _, _|by apply IH].
Qed.

Lemma write_record_from_list_ok w id labels data out_path tr :
  can_write w out_path = true →
  first_failure w labels data = None →
  Writer.write_record_from_list w id labels data out_path tr
  = (Ok {| res_id := id;
           record_count := Z.of_nat (length data);
           class_count := shard_counts w data;
           negative_count :=
             Z.of_nat (length (filter (λ p, boxes w p = 0) data)) |},
     tr ++ [RecordOpen out_path]
        ++ (RecordWrite out_path <$> encoded_prefix w labels data)
        ++ [RecordClose out_path]).
Proof.
  intros Hw Hff.
  destruct (write_record_from_list_spec w id labels data out_path tr Hw)
    as [Htr _].
  unfold Writer.write_record_from_list in *. rewrite Hw in *.
  rewrite io_bind_emit, io_bind_run in *. unfold finally in *.
  pose proof (write_loop_counts w labels out_path data [] 0%Z
                (tr ++ [RecordOpen out_path]) Hff) as Hres.
  destruct (Writer.write_loop w labels out_path data [] 0%Z
              (tr ++ [RecordOpen out_path])) as [r tr'].
  simpl in Hres. subst r. simpl in *. by rewrite Htr.
Qed.

(** ** The encoder at the edges of its input *)

Lemma mapM_Raise {A B} (f : A → result B) pre x post e :
  Forall (λ y, is_Ok (f y)) pre → f x = Raise e →
  mapM f (pre ++ x :: post) = Raise e.
Proof.
  intros Hpre Hx. induction Hpre as [|y pre [z Hz] _ IH]; simpl.
  - by rewrite Hx.
  - by rewrite Hz, IH.
Qed.


Lemma normalize_nan dim v :
  Encoder.normalize (Num.PyFloat S754_nan) dim = Ok v →
  v = Num.PyFloat S754_nan.
Proof.
  unfold Encoder.normalize, Num.truediv.
  destruct (Num.of_int dim) as [b|]; simpl; [|done].
  unfold Num.float_div. destruct (Num.is_zero b); simpl; [done|].
  destruct b; by intros [= <-].
Qed.

Lemma normalize_nan_lookup (proj : rect → Num.pynum) dim rects vs i r :
  mapM (λ r, Encoder.normalize (proj r) dim) rects = Ok vs →
  rects !! i = Some r → proj r = Num.PyFloat S754_nan →
  vs !! i = Some (Num.PyFloat S754_nan).
Proof.
  intros Hvs%mapM_Ok_Forall2 Hi Hr.
  destruct (Forall2_lookup_l _ _ _ _ _ Hvs Hi) as (v & -> & Hv).
  rewrite Hr in Hv. by rewrite (normalize_nan _ _ Hv).
Qed.

Lemma normalize_all_Ok (proj : rect → Num.pynum) dim rects :
  (0 < dim < 2 ^ 53)%Z →
  Forall (λ r, is_number (proj r) = true) rects →
  is_Ok (mapM (λ r, Encoder.normalize (proj r) dim) rects).
Proof.
  intros Hdim Hnum. apply mapM_is_Ok.
  eapply Forall_impl; [exact Hnum|]. intros r Hr. simpl.
  destruct (normalize_number (proj r) dim Hr Hdim) as (q & _ & -> & _).
  by eexists.
Qed.

(** The encoder, once the files are read and the boxes normalized, is
    the lookup of the class ids. *)
Lemma create_tf_example_run w labels p first im channels rects classes :
  read_first_line w p = Ok first →
  image_open w (Encoder.image_path w p first) = Ok im →
  im_channels im = Ok channels →
  read_rects w p = Ok (rects, classes) →
  (0 < im_width im < 2 ^ 53)%Z →
  (0 < im_height im < 2 ^ 53)%Z →
  Forall (λ r, rect_is_number r = true) rects →
  ∃ xmins xmaxs ymins ymaxs,
    Encoder.create_tf_example w labels p
    = (class_ids ← mapM (Dict.getitem labels) classes;
       Ok ({| image_height := im_height im;
              image_width := im_width im;
              image_channels := channels;
              image_colorspace := "RGB";
              image_filename := Encoder.image_path w p first;
              image_source_id := Encoder.image_path w p first;
              image_key := Encoder.image_path w p first;
              image_encoded := im_png im;
              image_format := "png";
              bbox_xmin := xmins;
              bbox_xmax := xmaxs;
              bbox_ymin := ymins;
              bbox_ymax := ymaxs;
              class_text := classes;
              class_label := class_ids |},
           Counter.of_list classes,
           bool_decide (length rects = 0))).
Proof.
  intros Hfirst Him Hch Hread Hw Hh Hnum.
  assert (∀ proj : rect → Num.pynum,
            (∀ r, rect_is_number r = true → is_number (proj r) = true) →
            Forall (λ r, is_number (proj r) = true) rects) as Hproj.
  { intros proj Hp. eapply Forall_impl; [exact Hnum|]. intros r. apply Hp. }
  destruct (normalize_all_Ok rect_0 _ rects Hw (Hproj rect_0 ltac:(
    intros r; unfold rect_is_number; rewrite !andb_true_iff; tauto)))
    as [xmins Hxmins].
  destruct (normalize_all_Ok rect_2 _ rects Hw (Hproj rect_2 ltac:(
    intros r; unfold rect_is_number; rewrite !andb_true_iff; tauto)))
    as [xmaxs Hxmaxs].
  destruct (normalize_all_Ok rect_1 _ rects Hh (Hproj rect_1 ltac:(
    intros r; unfold rect_is_number; rewrite !andb_true_iff; tauto)))
    as [ymins Hymins].
  destruct (normalize_all_Ok rect_3 _ rects Hh (Hproj rect_3 ltac:(
    intros r; unfold rect_is_number; rewrite !andb_true_iff; tauto)))
    as [ymaxs Hymaxs].
  exists xmins, xmaxs, ymins, ymaxs.
  unfold Encoder.create_tf_example.
  rewrite Hfirst. cbn [mbind result_bind]. rewrite Him. cbn [mbind result_bind].
  rewrite Hch. cbn [mbind result_bind]. rewrite Hread. cbn [mbind result_bind].
  rewrite Hxmins. cbn [mbind result_bind]. rewrite Hxmaxs.
  cbn [mbind result_bind]. rewrite Hymins. cbn [mbind result_bind].
  rewrite Hymaxs. done.
Qed.



(** X9. The clamp does not catch a coordinate that is not a number: where
    a box of the annotation has a NaN, the record the encoder returns has
    a NaN at the same place of the coordinate list, and this value is not
    in [0, 1]. *)
Theorem nan_coordinate_kept w labels p example count is_negative
    rects classes i r :
  Encoder.create_tf_example w labels p = Ok (example, count, is_negative) →
  read_rects w p = Ok (rects, classes) →
  rects !! i = Some r →
  (rect_0 r = Num.PyFloat S754_nan →
   bbox_xmin example !! i = Some (Num.PyFloat S754_nan)) ∧
  (rect_2 r = Num.PyFloat S754_nan →
   bbox_xmax example !! i = Some (Num.PyFloat S754_nan)) ∧
  (rect_1 r = Num.PyFloat S754_nan →
   bbox_ymin example !! i = Some (Num.PyFloat S754_nan)) ∧
  (rect_3 r = Num.PyFloat S754_nan →
   bbox_ymax example !! i = Some (Num.PyFloat S754_nan)) ∧
  ¬ in_unit (Num.PyFloat S754_nan).
Proof.
  intros Hrun Hread Hi.
  apply create_tf_example_boxes in Hrun
    as (rects' & classes' & Hread' & Hx0 & Hx1 & Hy0 & Hy1).
  rewrite Hread in Hread'. simplify_eq.
  split_and!.
  - intros Hr. by eapply (normalize_nan_lookup rect_0).
  - intros Hr. by eapply (normalize_nan_lookup rect_2).
  - intros Hr. by eapply (normalize_nan_lookup rect_1).
  - intros Hr. by eapply (normalize_nan_lookup rect_3).
  - by intros [? ?].
Qed.

Lemma nan_coordinate_kept_witness :
  (rect_0 Corner.nan_box = Num.PyFloat S754_nan →
   bbox_xmin Corner.example_nan !! 1 = Some (Num.PyFloat S754_nan)) ∧
  (rect_2 Corner.nan_box = Num.PyFloat S754_nan →
   bbox_xmax Corner.example_nan !! 1 = Some (Num.PyFloat S754_nan)) ∧
  (rect_1 Corner.nan_box = Num.PyFloat S754_nan →
   bbox_ymin Corner.example_nan !! 1 = Some (Num.PyFloat S754_nan)) ∧
  (rect_3 Corner.nan_box = Num.PyFloat S754_nan →
   bbox_ymax Corner.example_nan !! 1 = Some (Num.PyFloat S754_nan)) ∧
  ¬ in_unit (Num.PyFloat S754_nan).
Proof.
  apply (nan_coordinate_kept Corner.the_world Sample.labels "nan.txt"
           Corner.example_nan (Counter.of_list ["cat"; "dog"]) false
           [Sample.box 1 2 3 4; Corner.nan_box] ["cat"; "dog"] 1
           Corner.nan_box); reflexivity.
Defined.

(** X10. With a vocabulary that lacks a class name of the annotation, the
    encoder raises [KeyError] for the first such name, after the image
    and the boxes have been processed: nothing is returned for the
    file. *)
Theorem encoder_unknown_class w labels p first im channels rects
    pre c post :
  read_first_line w p = Ok first →
  image_open w (Encoder.image_path w p first) = Ok im →
  im_channels im = Ok channels →
  read_rects w p = Ok (rects, pre ++ c :: post) →
  (0 < im_width im < 2 ^ 53)%Z →
  (0 < im_height im < 2 ^ 53)%Z →
  Forall (λ r, rect_is_number r = true) rects →
  Forall (λ c', is_Some (Dict.get labels c')) pre →
  Dict.get labels c = None →
  Encoder.create_tf_example w labels p = Raise (KeyError c).
Proof.
  intros Hfirst Him Hch Hread Hw Hh Hnum Hpre Hc.
  destruct (create_tf_example_run w labels p first im channels rects
              (pre ++ c :: post) Hfirst Him Hch Hread Hw Hh Hnum)
    as (xmins & xmaxs & ymins & ymaxs & ->).
  rewrite (mapM_Raise (Dict.getitem labels) pre c post (KeyError c)); [done| |].
  - eapply Forall_impl; [exact Hpre|]. intros c' [v Hv].
    unfold Dict.getitem. rewrite Hv. by eexists.
  - unfold Dict.getitem. by rewrite Hc.
Qed.

Lemma encoder_unknown_class_witness :
  Encoder.create_tf_example Corner.the_world Sample.labels "owl.txt"
  = Raise (KeyError "owl").
Proof.
  apply (encoder_unknown_class Corner.the_world Sample.labels "owl.txt"
           "1,2,3,4,x" Sample.picture 3%Z
           [Sample.box 1 2 3 4; Sample.box 5 6 7 8; Sample.box 1 2 3 4]
           ["dog"] "owl" ["cat"]);
    try reflexivity; try (simpl; lia).
  - repeat constructor.
  - repeat constructor. by eexists.
Defined.

(** X11. The encoder returns a record for an annotation whose first line
    and boxes can be read, whose image opens with three dimensions of
    pixels and a width and a height between 1 and [2 ^ 53], whose
    coordinates are numbers and whose class names are all in the
    vocabulary.  The record carries the dimensions and the bytes of the
    image and three times its path; the counter counts the class names,
    and the file is a negative exactly when it has no box. *)
Theorem encoder_returns w labels p first im channels rects classes :
  read_first_line w p = Ok first →
  image_open w (Encoder.image_path w p first) = Ok im →
  im_channels im = Ok channels →
  read_rects w p = Ok (rects, classes) →
  (0 < im_width im < 2 ^ 53)%Z →
  (0 < im_height im < 2 ^ 53)%Z →
  Forall (λ r, rect_is_number r = true) rects →
  Forall (λ c, is_Some (Dict.get labels c)) classes →
  ∃ example,
    Encoder.create_tf_example w labels p
    = Ok (example, Counter.of_list classes, bool_decide (rects = [])) ∧
    image_height example = im_height im ∧
    image_width example = im_width im ∧
    image_channels example = channels ∧
    image_encoded example = im_png im ∧
    image_filename example = Encoder.image_path w p first ∧
    image_source_id example = Encoder.image_path w p first ∧
    image_key example = Encoder.image_path w p first ∧
    class_text example = classes ∧
    Forall2 (λ c id, Dict.get labels c = Some id)
      classes (class_label example).
Proof.
  intros Hfirst Him Hch Hread Hw Hh Hnum Hcls.
  destruct (create_tf_example_run w labels p first im channels rects
              classes Hfirst Him Hch Hread Hw Hh Hnum)
    as (xmins & xmaxs & ymins & ymaxs & ->).
  destruct (mapM_is_Ok (Dict.getitem labels) classes) as [ids Hids].
  { eapply Forall_impl; [exact Hcls|]. intros c [v Hv].
    unfold Dict.getitem. rewrite Hv. by eexists. }
  rewrite Hids. cbn [mbind result_bind].
  replace (bool_decide (rects = [])) with (bool_decide (length rects = 0))
    by (apply bool_decide_ext; by destruct rects).
  eexists. split; [reflexivity|]. simpl. split_and!; try done.
  apply mapM_Ok_Forall2 in Hids.
  eapply Forall2_impl; [exact Hids|]. intros c id. unfold Dict.getitem.
  by destruct (Dict.get labels c); intros [= ->].
Qed.

Lemma encoder_returns_witness :
  ∃ example,
    Encoder.create_tf_example Sample.the_world Sample.labels "data/b.txt"
    = Ok (example, Counter.of_list ["cat"; "dog"],
          bool_decide ([Sample.box (-5) 0 700 500; Sample.box 1 2 3 4] = [])) ∧
    image_height example = im_height Sample.picture ∧
    image_width example = im_width Sample.picture ∧
    image_channels example = 3%Z ∧
    image_encoded example = im_png Sample.picture ∧
    image_filename example
    = Encoder.image_path Sample.the_world "data/b.txt" "1,2,3,4,x" ∧
    image_source_id example
    = Encoder.image_path Sample.the_world "data/b.txt" "1,2,3,4,x" ∧
    image_key example
    = Encoder.image_path Sample.the_world "data/b.txt" "1,2,3,4,x" ∧
    class_text example = ["cat"; "dog"] ∧
    Forall2 (λ c id, Dict.get Sample.labels c = Some id)
      ["cat"; "dog"] (class_label example).
Proof.
  apply (encoder_returns Sample.the_world Sample.labels "data/b.txt"
           "1,2,3,4,x" Sample.picture 3%Z
           [Sample.box (-5) 0 700 500; Sample.box 1 2 3 4] ["cat"; "dog"]);
    try reflexivity; try (simpl; lia).
  - repeat constructor.
  - repeat constructor; by eexists.
Defined.

(** ** Counting per class *)

Lemma dict_get_set c k v k' :
  Dict.get (Dict.set c k v) k'
  = if decide (k' = k) then Some v else Dict.get c k'.
Proof.
  induction c as [|[k1 v1] c IH]; simpl; [done|].
  destruct (decide (k = k1)) as [->|Hne]; simpl.
  - by destruct (decide (k' = k1)).
  - rewrite IH. destruct (decide (k' = k1)), (decide (k' = k)); congruence.
Qed.

Lemma dict_set_keys c k v :
  (Dict.set c k v).*1 = if decide (k ∈ c.*1) then c.*1 else c.*1 ++ [k].
Proof.
  induction c as [|[k1 v1] c IH].
  - destruct (decide (k ∈ ([] : Dict.dict).*1)) as [Hin|]; [|done].
    by apply elem_of_nil in Hin.
  - cbn [Dict.set]. rewrite fmap_cons. cbn [fst].
    destruct (decide (k = k1)) as [->|Hne].
    + rewrite fmap_cons. cbn [fst].
      destruct (decide (k1 ∈ k1 :: c.*1)) as [|Hnin]; [done|].
      destruct Hnin. apply elem_of_cons. by left.
    + rewrite fmap_cons, IH. cbn [fst].
      destruct (decide (k ∈ c.*1)) as [Hin|Hnin],
        (decide (k ∈ k1 :: c.*1)) as [Hin'|Hnin']; try done.
      * destruct Hnin'. apply elem_of_cons. by right.
      * apply elem_of_cons in Hin' as [?|?]; done.
Qed.

Lemma dict_set_NoDup c k v : NoDup c.*1 → NoDup (Dict.set c k v).*1.
Proof.
  intros Hnd. rewrite dict_set_keys. case_decide; [done|].
  apply NoDup_app. split_and!; [done| |apply NoDup_singleton].
  intros x Hx ->%list_elem_of_singleton. done.
Qed.

Lemma counter_count_set c k v k' :
  Counter.count (Dict.set c k v) k'
  = if decide (k' = k) then v else Counter.count c k'.
Proof. unfold Counter.count. rewrite dict_get_set. by case_decide. Qed.

Lemma counter_count_cons k1 v1 (c : Counter.counter) k :
  Counter.count ((k1, v1) :: c) k
  = if decide (k = k1) then v1 else Counter.count c k.
Proof. unfold Counter.count. simpl. by case_decide. Qed.

Lemma counter_count_fresh (c : Counter.counter) k :
  k ∉ c.*1 → Counter.count c k = 0%Z.
Proof.
  intros Hk. unfold Counter.count.
  destruct (Dict.get c k) as [v|] eqn:Hget; [|done].
  destruct Hk. apply dict_get_is_Some. by eexists.
Qed.

Lemma counter_of_list_count l k :
  Counter.count (Counter.of_list l) k = Z.of_nat (occurrences k l) ∧
  NoDup (Counter.of_list l).*1.
Proof.
  unfold Counter.of_list, occurrences.
  enough (∀ c, NoDup c.*1 →
            Counter.count
              (foldl (λ c k, Dict.set c k (Counter.count c k + 1)%Z) c l) k
            = (Counter.count c k
               + Z.of_nat (length (filter (λ x, x = k) l)))%Z ∧
            NoDup (foldl (λ c k, Dict.set c k (Counter.count c k + 1)%Z)
                     c l).*1) as H.
  { destruct (H [] (NoDup_nil_2)) as [-> ?]. split; [|done].
    unfold Counter.count. simpl. lia. }
  induction l as [|x l IH]; intros c Hc.
  - split; [|done]. change (Counter.count c k = (Counter.count c k + 0)%Z). lia.
  - cbn [foldl].
    destruct (IH (Dict.set c x (Counter.count c x + 1)%Z)
                (dict_set_NoDup _ _ _ Hc)) as [-> Hnd].
    split; [|done]. rewrite counter_count_set, filter_cons.
    destruct (decide (k = x)) as [->|Hne].
    + rewrite decide_True by done. simpl. lia.
    + rewrite decide_False by done. lia.
Qed.

Lemma counter_of_list_wf l : counter_wf (Counter.of_list l).
Proof.
  split; [apply (counter_of_list_count l "")|apply counter_of_list_nonneg].
Qed.

Lemma counter_fold_count (other : Counter.counter) c k :
  NoDup other.*1 → NoDup c.*1 →
  Counter.count
    (foldl (λ c kv, Dict.set c kv.1 (Counter.count c kv.1 + kv.2)%Z) c other)
    k
  = (Counter.count c k + Counter.count other k)%Z ∧
  NoDup (foldl (λ c kv, Dict.set c kv.1 (Counter.count c kv.1 + kv.2)%Z)
           c other).*1.
Proof.
  intros Hother. revert c.
  induction other as [|[k1 v1] other IH]; intros c Hc.
  - split; [|done].
    change (Counter.count c k = (Counter.count c k + 0)%Z). lia.
  - rewrite fmap_cons in Hother. apply NoDup_cons in Hother as [Hk1 Hother].
    cbn [foldl fst snd].
    destruct (IH Hother (Dict.set c k1 (Counter.count c k1 + v1)%Z)
                (dict_set_NoDup _ _ _ Hc)) as [-> Hnd].
    split; [|done]. rewrite counter_count_set, counter_count_cons.
    destruct (decide (k = k1)) as [->|Hne]; [|done].
    rewrite (counter_count_fresh other k1) by done. lia.
Qed.

Lemma counter_filter_count (c : Counter.counter) k :
  counter_wf c →
  Counter.count (filter (λ kv, (0 < kv.2)%Z) c) k = Counter.count c k ∧
  NoDup (filter (λ kv, (0 < kv.2)%Z) c).*1.
Proof.
  intros [Hnd Hnn]. split.
  - induction c as [|[k1 v1] c IH]; [done|].
    rewrite fmap_cons in Hnd. apply NoDup_cons in Hnd as [Hk1 Hnd].
    apply Forall_cons in Hnn as [Hv1 Hnn]. simpl in Hv1.
    rewrite (filter_cons (λ kv : string * Z, (0 < kv.2)%Z)). simpl.
    rewrite (counter_count_cons k1 v1 c).
    destruct (decide (0 < v1)%Z).
    + rewrite (counter_count_cons k1 v1).
      destruct (decide (k = k1)); [done|]. by apply IH.
    + destruct (decide (k = k1)) as [->|]; [|by apply IH].
      etrans; [by apply IH|]. etrans; [by apply counter_count_fresh|]. lia.
  - eapply sublist_NoDup; [exact Hnd|].
    apply fmap_sublist, sublist_filter.
Qed.

Lemma counter_fold_nonneg c (other : Counter.counter) :
  counter_nonneg c → counter_nonneg other →
  counter_nonneg
    (foldl (λ c kv, Dict.set c kv.1 (Counter.count c kv.1 + kv.2)%Z) c other).
Proof.
  intros Hc Hother. revert c Hc.
  induction Hother as [|[k v] other Hv _ IH]; intros c Hc; [done|].
  cbn [foldl fst snd]. apply IH, dict_set_nonneg; [done|].
  pose proof (counter_count_nonneg c k Hc). simpl in Hv. lia.
Qed.

Lemma counter_iadd_count c other k :
  counter_wf c → counter_wf other →
  Counter.count (Counter.iadd c other) k
  = (Counter.count c k + Counter.count other k)%Z ∧
  counter_wf (Counter.iadd c other).
Proof.
  intros [Hc1 Hc2] [Ho1 Ho2].
  destruct (counter_fold_count other c k Ho1 Hc1) as [Hcount Hnd].
  pose proof (counter_fold_nonneg c other Hc2 Ho2) as Hd.
  destruct (counter_filter_count _ k (conj Hnd Hd)) as [Hf Hfnd].
  destruct (counter_filter_total _ Hd) as [_ Hfnn].
  unfold Counter.iadd.
  split; [etrans; [exact Hf|exact Hcount]|by split].
Qed.

Lemma shard_counts_count w data k :
  Counter.count (shard_counts w data) k
  = Z.of_nat (occurrences k (data ≫= class_names w)) ∧
  counter_wf (shard_counts w data).
Proof.
  unfold shard_counts.
  enough (∀ c, counter_wf c →
            Counter.count
              (foldl (λ c p, Counter.iadd c (Counter.of_list (class_names w p)))
                 c data) k
            = (Counter.count c k
               + Z.of_nat (occurrences k (data ≫= class_names w)))%Z ∧
            counter_wf
              (foldl (λ c p, Counter.iadd c (Counter.of_list (class_names w p)))
                 c data)) as H.
  { destruct (H [] (conj (NoDup_nil_2) (Forall_nil_2 _))) as [-> ?].
    split; [|done]. unfold Counter.count. simpl. lia. }
  induction data as [|p data IH]; intros c Hc.
  - split; [|done].
    change (Counter.count c k = (Counter.count c k + 0)%Z). lia.
  - cbn [foldl].
    destruct (counter_iadd_count c (Counter.of_list (class_names w p)) k Hc
                (counter_of_list_wf _)) as [Hcount Hwf].
    destruct (IH _ Hwf) as [-> Hwf']. split; [|done].
    rewrite Hcount, (proj1 (counter_of_list_count _ k)), bind_cons.
    unfold occurrences. rewrite filter_app, length_app. lia.
Qed.

(** X7. A shard writer whose files all encode writes, between the opening
    and the closing of its record file, one record per file of the task,
    in the order of the task; it returns the number of files as record
    count, the number of files without boxes as negative count, and a
    class counter that gives, for every class name, the number of times
    the name is read in the files of the task, so that its counts add up
    to the number of class names read. *)
Theorem shard_written w id labels data out_path tr :
  can_write w out_path = true →
  first_failure w labels data = None →
  ∃ examples res,
    Writer.write_record_from_list w id labels data out_path tr
    = (Ok res,
       tr ++ [RecordOpen out_path] ++ (RecordWrite out_path <$> examples)
          ++ [RecordClose out_path]) ∧
    Forall2 (λ p example, ∃ count is_negative,
               Encoder.create_tf_example w labels p
               = Ok (example, count, is_negative)) data examples ∧
    res_id res = id ∧
    record_count res = Z.of_nat (length data) ∧
    negative_count res
    = Z.of_nat (length (filter (λ p, boxes w p = 0) data)) ∧
    (∀ k, Counter.count (class_count res) k
          = Z.of_nat (occurrences k (data ≫= class_names w))) ∧
    Counter.total (class_count res)
    = Z.of_nat (length (data ≫= class_names w)).
Proof.
  intros Hw Hff. eexists _, _. split_and!.
  - by apply write_record_from_list_ok.
  - by apply encoded_prefix_all.
  - done.
  - done.
  - done.
  - intros k. apply shard_counts_count.
  - apply shard_counts_total.
Qed.

Lemma shard_written_witness :
  ∃ examples res,
    Writer.write_record_from_list Sample.the_world "train-00" Sample.labels
      ["data/b.txt"; "data/c.txt"] "data/train-00.record" []
    = (Ok res,
       [] ++ [RecordOpen "data/train-00.record"]
          ++ (RecordWrite "data/train-00.record" <$> examples)
          ++ [RecordClose "data/train-00.record"]) ∧
    Forall2 (λ p example, ∃ count is_negative,
               Encoder.create_tf_example Sample.the_world Sample.labels p
               = Ok (example, count, is_negative))
      ["data/b.txt"; "data/c.txt"] examples ∧
    res_id res = "train-00" ∧
    record_count res = Z.of_nat (length ["data/b.txt"; "data/c.txt"]) ∧
    negative_count res
    = Z.of_nat (length (filter (λ p, boxes Sample.the_world p = 0)
                          ["data/b.txt"; "data/c.txt"])) ∧
    (∀ k, Counter.count (class_count res) k
          = Z.of_nat (occurrences k (["data/b.txt"; "data/c.txt"]
                                       ≫= class_names Sample.the_world))) ∧
    Counter.total (class_count res)
    = Z.of_nat (length (["data/b.txt"; "data/c.txt"]
                          ≫= class_names Sample.the_world)).
Proof.
  apply (shard_written Sample.the_world "train-00" Sample.labels
           ["data/b.txt"; "data/c.txt"] "data/train-00.record" []);
    reflexivity.
Defined.

(** ** The summary of a run *)

Lemma print_results_fold results acc k :
  counter_wf (overall_examples acc) →
  Forall (λ r, counter_wf (class_count r)) results →
  let s :=
    foldl (λ acc r,
             {| overall_records := (overall_records acc + record_count r)%Z;
                overall_examples :=
                  Counter.iadd (overall_examples acc) (class_count r);
                overall_negatives :=
                  (overall_negatives acc + negative_count r)%Z |})
          acc results in
  overall_records s = (overall_records acc + sumZ record_count results)%Z ∧
  overall_negatives s
  = (overall_negatives acc + sumZ negative_count results)%Z ∧
  Counter.count (overall_examples s) k
  = (Counter.count (overall_examples acc) k
     + sumZ (λ r, Counter.count (class_count r) k) results)%Z.
Proof.
  intros Hacc Hrs. cbv zeta. revert acc Hacc.
  induction Hrs as [|r rs Hr _ IH]; intros acc Hacc.
  - unfold sumZ. simpl. lia.
  - cbn [foldl].
    destruct (counter_iadd_count (overall_examples acc) (class_count r) k
                Hacc Hr) as [Hcount Hwf].
    destruct (IH {| overall_records := (overall_records acc + record_count r)%Z;
                    overall_examples :=
                      Counter.iadd (overall_examples acc) (class_count r);
                    overall_negatives :=
                      (overall_negatives acc + negative_count r)%Z |} Hwf)
      as (-> & -> & ->).
    cbn [overall_records overall_examples overall_negatives].
    rewrite Hcount. unfold sumZ. simpl. lia.
Qed.

Lemma print_results_totals results :
  Forall (λ r, counter_wf (class_count r)) results →
  overall_records (Main.print_results results) = sumZ record_count results ∧
  overall_negatives (Main.print_results results)
  = sumZ negative_count results ∧
  ∀ k, Counter.count (overall_examples (Main.print_results results)) k
       = sumZ (λ r, Counter.count (class_count r) k) results.
Proof.
  intros Hrs. unfold Main.print_results. split_and!.
  - by destruct (print_results_fold results
                   {| overall_records := 0; overall_examples := [];
                      overall_negatives := 0 |} ""
                   (conj (NoDup_nil_2) (Forall_nil_2 _)) Hrs) as (-> & _ & _).
  - by destruct (print_results_fold results
                   {| overall_records := 0; overall_examples := [];
                      overall_negatives := 0 |} ""
                   (conj (NoDup_nil_2) (Forall_nil_2 _)) Hrs) as (_ & -> & _).
  - intros k.
    by destruct (print_results_fold results
                   {| overall_records := 0; overall_examples := [];
                      overall_negatives := 0 |} k
                   (conj (NoDup_nil_2) (Forall_nil_2 _)) Hrs) as (_ & _ & ->).
Qed.

(** X12. The summary adds up the results of the shards: the overall
    record and negative counts are the sums of the counts of the shards,
    and the overall counter gives for every class name the sum of the
    counts the shards have for it, the shard counters being counters (each
    name once, no negative count), which is what keeps the in-place
    addition of counters from dropping anything. *)
Theorem summary_totals results :
  Forall (λ r, counter_wf (class_count r)) results →
  overall_records (Main.print_results results) = sumZ record_count results ∧
  overall_negatives (Main.print_results results)
  = sumZ negative_count results ∧
  ∀ k, Counter.count (overall_examples (Main.print_results results)) k
       = sumZ (λ r, Counter.count (class_count r) k) results.
Proof. apply print_results_totals. Qed.

Lemma summary_totals_witness :
  overall_records
    (Main.print_results [Sample.shard_result; Sample.shard_result])
  = sumZ record_count [Sample.shard_result; Sample.shard_result] ∧
  overall_negatives
    (Main.print_results [Sample.shard_result; Sample.shard_result])
  = sumZ negative_count [Sample.shard_result; Sample.shard_result] ∧
  ∀ k, Counter.count
         (overall_examples
            (Main.print_results [Sample.shard_result; Sample.shard_result])) k
       = sumZ (λ r, Counter.count (class_count r) k)
           [Sample.shard_result; Sample.shard_result].
Proof.
  apply (summary_totals [Sample.shard_result; Sample.shard_result]).
  apply (bool_decide_unpack _). by vm_compute.
Defined.

Lemma run_task_ok w t tr :
  task_ok w t = true →
  Pool.run_task w t tr = (Ok (task_result w t), tr ++ task_events w t).
Proof.
  unfold task_ok. intros [Hw Hff]%andb_true_iff.
  destruct (first_failure w (task_labels t) (task_data t)) eqn:Hf; [done|].
  unfold Pool.run_task. by rewrite write_record_from_list_ok.
Qed.

Lemma run_batch_ok w batch tr :
  forallb (task_ok w) batch = true →
  Pool.run_batch w batch tr
  = (Ok (task_result w <$> batch), tr ++ concat (task_events w <$> batch)).
Proof.
  unfold Pool.run_batch. revert tr.
  induction batch as [|t batch IH]; intros tr.
  - intros _. simpl. by rewrite (right_id_L [] (++)).
  - cbn [mapM forallb]. intros [Ht Hbatch]%andb_true_iff.
    rewrite io_bind_run, (run_task_ok w t tr Ht).
    rewrite io_bind_run, (IH _ Hbatch).
    rewrite !fmap_cons. cbn [concat]. by rewrite (assoc_L (++)).
Qed.

Lemma run_batches_ok w batches tr :
  forallb (task_ok w) (concat batches) = true →
  Pool.gather (Pool.run_batches w batches tr).1
  = Ok (task_result w <$> concat batches) ∧
  (Pool.run_batches w batches tr).2
  = tr ++ concat (task_events w <$> concat batches).
Proof.
  revert tr. induction batches as [|b bs IH]; intros tr.
  - intros _. simpl. by rewrite (right_id_L [] (++)).
  - cbn [Pool.run_batches concat]. rewrite forallb_app.
    intros [Hb Hbs]%andb_true_iff.
    rewrite (run_batch_ok w b tr Hb).
    destruct (IH (tr ++ concat (task_events w <$> b)) Hbs) as [IH1 IH2].
    destruct (Pool.run_batches w bs _) as [rs tr2]. simpl in *.
    rewrite IH1, IH2. simpl.
    by rewrite !fmap_app, concat_app, (assoc_L (++)).
Qed.

Lemma starmap_ok w tasks tr :
  forallb (task_ok w) tasks = true →
  Pool.starmap w tasks tr
  = (Ok (task_result w <$> tasks), tr ++ concat (task_events w <$> tasks)).
Proof.
  intros Hok. unfold Pool.starmap.
  pose proof (run_batches_ok w
                (Pool.get_tasks (Pool.chunksize w (length tasks)) tasks) tr)
    as Hres.
  rewrite get_tasks_concat in Hres. destruct (Hres Hok) as [H1 H2].
  destruct (Pool.run_batches w _ tr) as [outs tr']. simpl in *.
  by rewrite H1, H2.
Qed.

(** X13. When every shard task succeeds, the pool returns one result per
    task, in the order of the tasks, however the tasks are cut into
    batches for the workers: the result at a place is the one of the task
    at that place. *)
Theorem starmap_results w tasks tr :
  forallb (task_ok w) tasks = true →
  (Pool.starmap w tasks tr).1 = Ok (task_result w <$> tasks).
Proof. intros Hok. by rewrite starmap_ok. Qed.

Lemma starmap_results_witness :
  (Pool.starmap Sample.the_world Sample.the_tasks []).1
  = Ok (task_result Sample.the_world <$> Sample.the_tasks).
Proof.
  apply (starmap_results Sample.the_world Sample.the_tasks []).
  reflexivity.
Defined.

Lemma tasks_data_Permutation w a g tasks labels :
  Tasks.get_record_writing_tasks w a g = Ok (tasks, labels) →
  concat (task_data <$> tasks) ≡ₚ run_files w a.
Proof.
  intros (train & evalf & tt & et & Hfiles & _ & Htt & Het & ->)
    %get_record_writing_tasks_Ok.
  rewrite fmap_app, concat_app.
  rewrite (tasks_for_Permutation _ _ _ _ _ _ _ Htt).
  rewrite (tasks_for_Permutation _ _ _ _ _ _ _ Het).
  by apply get_filenames_Ok in Hfiles.
Qed.

Lemma task_results_sums w tasks k :
  sumZ record_count (task_result w <$> tasks)
  = Z.of_nat (length (concat (task_data <$> tasks))) ∧
  sumZ negative_count (task_result w <$> tasks)
  = Z.of_nat (length (filter (λ p, boxes w p = 0)
                        (concat (task_data <$> tasks)))) ∧
  sumZ (λ r, Counter.count (class_count r) k) (task_result w <$> tasks)
  = Z.of_nat (occurrences k (concat (task_data <$> tasks) ≫= class_names w)).
Proof.
  unfold sumZ, occurrences.
  induction tasks as [|t tasks (IH1 & IH2 & IH3)]; [done|].
  rewrite !fmap_cons. cbn [foldr concat].
  rewrite IH1, IH2, IH3, bind_app, !filter_app, !length_app.
  cbn [task_result record_count negative_count class_count].
  rewrite (proj1 (shard_counts_count w (task_data t) k)).
  unfold occurrences. lia.
Qed.

(** X14. In a run in which every shard task succeeds and the manifest can
    be written, the summary counts the annotation files discovery has
    collected: the overall number of records is the number of these
    files, the overall number of negatives the number of those without
    boxes, and the overall count of a class name the number of times the
    name is read in these files.  The shuffle, the split and the sharding
    lose and duplicate nothing. *)
Theorem run_summary w a tr tasks labels :
  Tasks.get_record_writing_tasks w a (seed w 42) = Ok (tasks, labels) →
  forallb (task_ok w) tasks = true →
  can_write w (path_join w (folder a) "label.pbtxt") = true →
  ∃ s tr',
    Main.main w a tr = (Ok s, tr') ∧
    overall_records s = Z.of_nat (length (run_files w a)) ∧
    overall_negatives s
    = Z.of_nat (length (filter (λ p, boxes w p = 0) (run_files w a))) ∧
    ∀ k, Counter.count (overall_examples s) k
         = Z.of_nat (occurrences k (run_files w a ≫= class_names w)).
Proof.
  intros Htasks Hok Hw.
  pose proof (tasks_data_Permutation w a _ tasks labels Htasks) as Hperm.
  unfold Main.main. rewrite Htasks, io_bind_lift_Ok.
  cbv beta iota. rewrite io_bind_run, starmap_ok by done.
  rewrite io_bind_run. unfold Main.write_labels. rewrite Hw.
  unfold emit at 1. cbv beta iota.
  eexists _, _. split; [reflexivity|].
  assert (Forall (λ r, counter_wf (class_count r)) (task_result w <$> tasks))
    as Hwf.
  { apply Forall_fmap, Forall_forall. intros t _. simpl.
    apply (shard_counts_count w (task_data t) ""). }
  destruct (print_results_totals (task_result w <$> tasks) Hwf)
    as (-> & -> & Hcount).
  split_and!.
  - rewrite (proj1 (task_results_sums w tasks "")). by rewrite Hperm.
  - rewrite (proj1 (proj2 (task_results_sums w tasks ""))). by rewrite Hperm.
  - intros k. rewrite Hcount.
    rewrite (proj2 (proj2 (task_results_sums w tasks k))).
    unfold occurrences. by rewrite Hperm.
Qed.

Lemma run_summary_witness :
  ∃ s tr',
    Main.main Sample.the_world Sample.the_args [] = (Ok s, tr') ∧
    overall_records s
    = Z.of_nat (length (run_files Sample.the_world Sample.the_args)) ∧
    overall_negatives s
    = Z.of_nat (length (filter (λ p, boxes Sample.the_world p = 0)
                          (run_files Sample.the_world Sample.the_args))) ∧
    ∀ k, Counter.count (overall_examples s) k
         = Z.of_nat (occurrences k
                       (run_files Sample.the_world Sample.the_args
                          ≫= class_names Sample.the_world)).
Proof.
  apply (run_summary Sample.the_world Sample.the_args []
           Sample.the_tasks Sample.labels); reflexivity.
Defined.

(** X15. The label map is written after the records: when every shard
    task succeeds and the label map cannot be created, the run ends with
    [OSError], without a summary and without a manifest, and what it has
    written is what the shard writers of all its tasks write, every
    record file opened, filled and closed. *)
Theorem manifest_unwritable w a tr tasks labels :
  Tasks.get_record_writing_tasks w a (seed w 42) = Ok (tasks, labels) →
  forallb (task_ok w) tasks = true →
  can_write w (path_join w (folder a) "label.pbtxt") = false →
  ∃ recs,
    Main.main w a tr = (Raise OSError, tr ++ recs) ∧
    recs ≡ₚ concat (task_events w <$> tasks) ∧
    Forall is_record_event recs.
Proof.
  intros Htasks Hok Hw. exists (concat (task_events w <$> tasks)).
  split_and!; [|done|].
  - unfold Main.main. rewrite Htasks, io_bind_lift_Ok.
    cbv beta iota. rewrite io_bind_run, starmap_ok by done.
    rewrite io_bind_run. unfold Main.write_labels. by rewrite Hw.
  - apply Forall_forall. intros ev Hev.
    apply list_elem_of_In, in_concat in Hev as (evs & Hevs & Hev).
    apply list_elem_of_In, list_elem_of_fmap in Hevs as (t & -> & _).
    apply list_elem_of_In in Hev. unfold task_events in Hev.
    rewrite !elem_of_app, list_elem_of_fmap in Hev.
    destruct Hev as [Hev|[(ex & -> & _)|Hev]]; [|done|];
      by apply list_elem_of_singleton in Hev as ->.
Qed.

Lemma manifest_unwritable_witness :
  ∃ recs,
    Main.main Corner.no_manifest_world Sample.the_args []
    = (Raise OSError, [] ++ recs) ∧
    recs ≡ₚ concat (task_events Corner.no_manifest_world <$> Sample.the_tasks) ∧
    Forall is_record_event recs.
Proof.
  apply (manifest_unwritable Corner.no_manifest_world Sample.the_args []
           Sample.the_tasks Sample.labels); reflexivity.
Defined.

(** X16. Without the automatic split, the task builder returns its tasks
    and the vocabulary exactly when every annotation file discovery has
    collected can be read by the box reader: discovery and sharding do
    not fail, and the vocabulary is built from all the files before any
    task is. *)
Theorem tasks_built w a g :
  eval_folder a ≠ None ∨ eval a = false →
  is_Ok (Tasks.get_record_writing_tasks w a g) ↔ readable w (run_files w a).
Proof.
  intros Hmode. split.
  - intros [[tasks labels] Hrun].
    apply get_record_writing_tasks_Ok in Hrun
      as (train & evalf & tt & et & Hfiles & Hlabels & _).
    apply get_labels_Ok in Hlabels as [Hread _].
    apply get_filenames_Ok in Hfiles.
    unfold readable, run_files in *. by rewrite <- Hfiles.
  - intros Hread.
    assert (∃ train evalf,
              Tasks.get_filenames w a g = Ok (train, evalf)) as
      (train & evalf & Hfiles).
    { unfold Tasks.get_filenames.
      destruct (Discovery.get_shuffled_filenames w (folder a) g) as [tf g1].
      destruct (eval_folder a) as [ef|]; [by eexists _, _|].
      destruct Hmode as [Hn|He]; [done|]. rewrite He. by eexists _, _. }
    pose proof (get_filenames_Ok _ _ _ _ _ Hfiles) as Hperm.
    assert (readable w (train ++ evalf)) as Hread'
      by (unfold readable, run_files in *; by rewrite Hperm).
    destruct (get_labels_spec w _ Hread') as (names & Hlabels & _).
    destruct (split_into_lists_round_robin (number a) train)
      as (s1 & Hs1 & _).
    destruct (split_into_lists_round_robin (number a) evalf)
      as (s2 & Hs2 & _).
    unfold Tasks.get_record_writing_tasks, Tasks.tasks_for.
    rewrite Hfiles. cbn [mbind result_bind]. rewrite Hlabels.
    cbn [mbind result_bind]. rewrite Hs1. cbn [mbind result_bind].
    rewrite Hs2. by eexists.
Qed.

Lemma tasks_built_witness :
  is_Ok (Tasks.get_record_writing_tasks Sample.the_world Sample.the_args 42%Z)
  ↔ readable Sample.the_world (run_files Sample.the_world Sample.the_args).
Proof.
  apply (tasks_built Sample.the_world Sample.the_args 42%Z).
  right. reflexivity.
Defined.
